(** * Verification of the Beagle-side HAL: rotary encoder, PWM0 and servo

    Shallow embedding of [hal/src/rotary.c], [hal/src/PWM0.c] and
    [hal/src/servo.c].  C [int] and [long long] values are [Z]; the
    wrap-around of the atomic position counter is written out.  The sysfs
    environment (results of [read]/[write] on the attribute files, the
    appearance of exported directories) is an explicit oracle, and every
    hardware write is recorded in a trace. *)

From Stdlib Require Import ZArith QArith Qround Lqa List String Ascii Bool Lia.
Import ListNotations.
Open Scope Z_scope.

(** ** Rotary encoder ([rotary.c]) *)
Module Rotary.

(** [atomic_int] arithmetic: two's complement wrap-around on 32 bits. *)
Definition wrap32 (z : Z) : Z := (z + 2^31) mod 2^32 - 2^31.

(** What one [read(fd, buf, 15)] on a gpio [value] file gives: a failure
    ([fd < 0] or [n <= 0]) or at least one character. *)
Inductive read_result :=
| RFail
| RData (c : ascii) (rest : string).

(** [sysfs_read_int] *)
Definition sysfs_read_int (r : read_result) : Z :=
  match r with
  | RFail => -1
  | RData c _ => if Ascii.eqb c "0"%char then 0 else 1
  end.

(** [struct timespec] of [CLOCK_MONOTONIC]. *)
Record timespec := mkTs { tv_sec : Z; tv_nsec : Z }.

(** Shared globals ([g_pos], [g_button_edge]) and the locals of
    [encoder_thread] that survive between loop iterations. *)
Record state := mkState {
  g_pos : Z;
  g_button_edge : Z;
  last : Z;
  last_sw : Z;
  last_sw_time : timespec
}.

(** The [switch (diff)] of the Gray-code decoder. *)
Definition pos_delta (diff : Z) : Z :=
  if Z.eqb diff 1 || Z.eqb diff 7 || Z.eqb diff 14 || Z.eqb diff 8 then 1
  else if Z.eqb diff 2 || Z.eqb diff 4 || Z.eqb diff 13 || Z.eqb diff 11 then -1
  else 0.

(** [atomic_fetch_add] / [atomic_fetch_sub] / nothing. *)
Definition apply_delta (diff pos : Z) : Z :=
  if Z.eqb (pos_delta diff) 0 then pos else wrap32 (pos + pos_delta diff).

(** [dt_ms] of the debounce, [long long] with C's truncating division. *)
Definition dt_ms (now lt : timespec) : Z :=
  (tv_sec now - tv_sec lt) * 1000 + Z.quot (tv_nsec now - tv_nsec lt) 1000000.

(** One iteration of the [while (atomic_load(&g_run))] loop of
    [encoder_thread] (the [usleep] has no observable effect): the reads of
    lines A, B and SW and the value of [clock_gettime] are the inputs.  The
    shifts of a negative [int] are taken as two's complement shifts. *)
Definition tick (s : state) (ra rb rsw : read_result) (now : timespec) : state :=
  let a := sysfs_read_int ra in
  let b := sysfs_read_int rb in
  let st := Z.lor (Z.shiftl a 1) b in
  let diff := Z.lor (Z.shiftl (last s) 2) st in
  let pos := apply_delta diff (g_pos s) in
  let sw := sysfs_read_int rsw in
  if negb (Z.eqb sw (last_sw s)) then
    let dt := dt_ms now (last_sw_time s) in
    mkState pos
      (if Z.eqb sw 1 && Z.ltb 50 dt then 1 else g_button_edge s)
      st sw now
  else
    mkState pos (g_button_edge s) st (last_sw s) (last_sw_time s).

(** [rotaryEncoder_button_pressed]: [atomic_exchange(&g_button_edge, 0) != 0]. *)
Definition button_pressed (s : state) : bool * state :=
  (negb (Z.eqb (g_button_edge s) 0),
   mkState (g_pos s) 0 (last s) (last_sw s) (last_sw_time s)).

(** The polling thread and the consumer interleave at the granularity of a
    whole tick and of the single atomic exchange. *)
Inductive event :=
| Tick (ra rb rsw : read_result) (now : timespec)
| Take.

(** Runs a schedule; returns the answers of the consumer calls. *)
Fixpoint run (s : state) (es : list event) : list bool * state :=
  match es with
  | [] => ([], s)
  | Tick ra rb rsw now :: es' => run (tick s ra rb rsw now) es'
  | Take :: es' =>
      let '(r, s1) := button_pressed s in
      let '(rs, s2) := run s1 es' in (r :: rs, s2)
  end.

(** A successful read of a line at level [v] (0 or 1). *)
Definition line (v : Z) : read_result :=
  if Z.eqb v 0 then RData "0"%char EmptyString else RData "1"%char EmptyString.

(** The forward Gray cycle 00 -> 01 -> 11 -> 10 -> 00 and its reverse. *)
Definition gray_next (g : Z) : Z :=
  if Z.eqb g 0 then 1 else if Z.eqb g 1 then 3 else if Z.eqb g 3 then 2 else 0.
Definition gray_prev (g : Z) : Z :=
  if Z.eqb g 0 then 2 else if Z.eqb g 2 then 3 else if Z.eqb g 3 then 1 else 0.

(** Ticks whose A/B samples follow [next] from the 2-bit state [g]; the
    switch reads and clock values are arbitrary. *)
Fixpoint gray_events (next : Z -> Z) (g : Z)
    (sws : list (read_result * timespec)) : list event :=
  match sws with
  | [] => []
  | (rsw, now) :: t =>
      let g' := next g in
      Tick (line (Z.shiftr g' 1)) (line (Z.land g' 1)) rsw now
        :: gray_events next g' t
  end.

(** The transition-code classes of the specification. *)
Definition forward_code (c : Z) : bool := existsb (Z.eqb c) [1; 7; 14; 8].
Definition backward_code (c : Z) : bool := existsb (Z.eqb c) [2; 4; 13; 11].
Definition all_codes : list Z := map Z.of_nat (seq 0 16).

(** A schedule in which every tick reads the switch as pressed. *)
Definition held (es : list event) : Prop :=
  forall ra rb rsw now, In (Tick ra rb rsw now) es -> sysfs_read_int rsw = 1.

Definition is_take (e : event) : bool :=
  match e with Take => true | Tick _ _ _ _ => false end.

Definition count_true (l : list bool) : nat := List.length (filter (fun b => b) l).

End Rotary.

(** ** PWM0 sysfs HAL ([PWM0.c])

    The [double] arguments and globals are exact rationals [Q]: the model
    keeps the program's comparisons, [llround] and integer clamps, and
    abstracts from the rounding of the [double] operations themselves. *)
Module PWM0.

Definition PATH_MAX : nat := 4096.

(** Value written to a sysfs attribute: a string or a [%lld]-formatted
    number. *)
Inductive wval := VStr (s : string) | VNum (z : Z).

(** Observable effects, in chronological order. *)
Inductive io :=
| IOWrite (path : string) (v : wval) (ok : bool)
| IOSleep (ms : Z).

(** The file-system environment: the result of the [glob], whether a path
    exists at a given time (ms since the call sequence started), the
    outcome of the n-th write and the value [read_ll] gets from a path at a
    given time (-1 when unreadable). *)
Record env := mkEnv {
  env_glob : option (list string);
  env_exists : string -> Z -> bool;
  env_write_ok : nat -> bool;
  env_read_ll : string -> Z -> Z
}.

(** The globals of [PWM0.c] and the observable world. *)
Record machine := mkM {
  trace : list io;
  nwrites : nat;
  clock : Z;
  g_pwm_dir : string;
  g_period_ns : Z;
  g_duty_frac : Q
}.

Definition M (A : Type) := machine -> A * machine.
Definition ret {A} (a : A) : M A := fun m => (a, m).
Definition bind {A B} (x : M A) (k : A -> M B) : M B :=
  fun m => let '(a, m') := x m in k a m'.

Declare Scope pwm_scope.
Notation "x <- c ;; k" := (bind c (fun x => k))
  (at level 61, c at next level, right associativity) : pwm_scope.
Notation "c ;; k" := (bind c (fun _ => k))
  (at level 61, right associativity) : pwm_scope.
Notation "c >>= k" := (bind c k) (at level 58, left associativity) : pwm_scope.
Local Open Scope pwm_scope.

Definition Qltb (x y : Q) : bool := negb (Qle_bool y x).

(** [llround]: to nearest, halves away from zero. *)
Definition llround (x : Q) : Z :=
  if Qle_bool 0 x then Qfloor (x + (1 # 2))%Q else - Qfloor (- x + (1 # 2))%Q.

(** [path_join2] into a [PATH_MAX] buffer. *)
Definition path_join2 (a b : string) : option string :=
  if (String.length a + String.length b <? PATH_MAX)%nat
  then Some (a ++ b)%string else None.

(** [bounded_dc_from_ratio] *)
Definition bounded_dc_from_ratio (ratio : Q) (per : Z) : Z :=
  let ratio := if Qltb ratio (5 # 100) then 5 # 100 else ratio in
  let ratio := if Qltb (95 # 100) ratio then 95 # 100 else ratio in
  let dc := llround (ratio * inject_Z per)%Q in
  let dc := if dc <=? 0 then 1 else dc in
  if per <=? dc then per - 1 else dc.

Section Program.
Variable E : env.

Definition path_exists (p : string) : M bool :=
  fun m => (env_exists E p (clock m), m).

Definition msleep (ms : Z) : M unit :=
  fun m => (tt, mkM (trace m ++ [IOSleep ms]) (nwrites m) (clock m + ms)
                    (g_pwm_dir m) (g_period_ns m) (g_duty_frac m)).

Definition write_val (p : string) (v : wval) : M Z :=
  fun m =>
    let ok := env_write_ok E (nwrites m) in
    (if ok then 0 else -1,
     mkM (trace m ++ [IOWrite p v ok]) (S (nwrites m)) (clock m)
         (g_pwm_dir m) (g_period_ns m) (g_duty_frac m)).

(** [write_str]; [write_ll] ([%lld] of a [long long] always fits the
    32-byte buffer). *)
Definition write_str (p s : string) : M Z := write_val p (VStr s).
Definition write_ll (p : string) (v : Z) : M Z := write_val p (VNum v).

Definition read_ll (p : string) : M Z :=
  fun m => (env_read_ll E p (clock m), m).

Definition get : M machine := fun m => (m, m).
Definition set_dir (d : string) : M unit :=
  fun m => (tt, mkM (trace m) (nwrites m) (clock m) d (g_period_ns m) (g_duty_frac m)).
Definition set_period (p : Z) : M unit :=
  fun m => (tt, mkM (trace m) (nwrites m) (clock m) (g_pwm_dir m) p (g_duty_frac m)).
Definition set_frac (f : Q) : M unit :=
  fun m => (tt, mkM (trace m) (nwrites m) (clock m) (g_pwm_dir m) (g_period_ns m) f).

(** [for (t = 0; t < 50 && !path_exists(pwm0); ++t) msleep(10);] *)
Fixpoint wait_pwm0 (n : nat) (p : string) : M unit :=
  match n with
  | O => ret tt
  | S n' => e <- path_exists p;;
            if e then ret tt else (msleep 10;; wait_pwm0 n' p)
  end.

(** The loop over the [glob] results of [probe_find_pwm]. *)
Fixpoint probe_chips (cs : list string) : M Z :=
  match cs with
  | [] => ret (-1)
  | c :: cs' =>
    match path_join2 c "" with None => probe_chips cs' | Some chip =>
    match path_join2 chip "/export" with None => probe_chips cs' | Some exportf =>
    match path_join2 chip "/pwm0" with None => probe_chips cs' | Some pwm0 =>
      e <- path_exists pwm0;;
      (if e then ret tt else (write_str exportf "0";; wait_pwm0 50 pwm0));;
      e2 <- path_exists pwm0;;
      if negb e2 then probe_chips cs' else
      match path_join2 pwm0 "/enable", path_join2 pwm0 "/period",
            path_join2 pwm0 "/duty_cycle" with
      | Some en, Some pe, Some du =>
          a <- path_exists en;; b <- path_exists pe;; d <- path_exists du;;
          if a && b && d then
            match path_join2 pwm0 "" with
            | None => ret (-1)
            | Some dir => set_dir dir;; ret 0
            end
          else probe_chips cs'
      | _, _, _ => probe_chips cs'
      end
    end end end
  end.

(** [probe_find_pwm] *)
Definition probe_find_pwm : M Z :=
  m <- get;;
  if negb (String.eqb (g_pwm_dir m) "") then ret 0 else
  match env_glob E with
  | None => ret (-1)
  | Some cs => probe_chips cs
  end.

(** The three attempts of the bring-up loop of [PWM0_init]. *)
Fixpoint init_attempts (n : nat) (enable period dutyf : string) (per_ns dty_ns : Z)
    : M Z :=
  match n with
  | O => ret (-1)
  | S n' =>
    let retry := msleep 2;; init_attempts n' enable period dutyf per_ns dty_ns in
    write_ll enable 0;; msleep 2;;
    write_ll dutyf 1;; msleep 1;;
    r3 <- write_ll period per_ns;;
    if negb (r3 =? 0) then retry else
    r4 <- write_ll dutyf dty_ns;;
    if negb (r4 =? 0) then retry else
    r5 <- write_ll enable 1;;
    if negb (r5 =? 0) then retry else
    set_period per_ns;;
    set_frac (inject_Z dty_ns / inject_Z per_ns)%Q;;
    ret 0
  end.

(** The period of [hz]: [llround(1e9 / hz)], at least 1.  [llround] is
    taken as exact; C gives this value whenever it fits in a [long long]
    (below 2^63), and an unspecified one otherwise. *)
Definition period_of_hz (hz : Q) : Z :=
  let p := llround (inject_Z 1000000000 / hz)%Q in if p <? 1 then 1 else p.

(** The duty fraction [PWM0_init] brings the channel up with. *)
Definition init_duty (duty : Q) : Q :=
  let duty := if Qltb duty (5 # 100) then 1 # 2 else duty in
  if Qltb (95 # 100) duty then 1 # 2 else duty.

(** The chips the [glob] lists (none when it fails). *)
Definition glob_list (E : env) : list string :=
  match env_glob E with Some cs => cs | None => [] end.

Definition init_hz (hz : Q) : Q := if Qle_bool hz 0 then 100%Q else hz.

(** [PWM0_init] *)
Definition PWM0_init (hz duty : Q) : M Z :=
  r <- probe_find_pwm;;
  if negb (r =? 0) then ret (-1) else
  m <- get;;
  match path_join2 (g_pwm_dir m) "/enable", path_join2 (g_pwm_dir m) "/period",
        path_join2 (g_pwm_dir m) "/duty_cycle" with
  | Some enable, Some period, Some dutyf =>
      let per_ns := period_of_hz (init_hz hz) in
      let dty_ns := bounded_dc_from_ratio (init_duty duty) per_ns in
      init_attempts 3 enable period dutyf per_ns dty_ns
  | _, _, _ => ret (-1)
  end.

(** The [FALLBACK] loop of [PWM0_set_freq] (two attempts; a failed
    re-enable [continue]s without the back-off). *)
Fixpoint freq_fallback (n : nat) (enable period dutyf : string) (new_per new_dty : Z)
    : M Z :=
  match n with
  | O => ret (-1)
  | S n' =>
    let again := freq_fallback n' enable period dutyf new_per new_dty in
    let backoff := msleep 1;; write_ll enable 1;; msleep 1;; again in
    write_ll enable 0;; msleep 1;;
    write_ll dutyf 1;;
    r1 <- write_ll period new_per;;
    if negb (r1 =? 0) then backoff else
    r2 <- write_ll dutyf new_dty;;
    if negb (r2 =? 0) then backoff else
    r3 <- write_ll enable 1;;
    if negb (r3 =? 0) then again else
    msleep 1;;
    set_period new_per;;
    set_frac (inject_Z new_dty / inject_Z new_per)%Q;;
    ret 0
  end.

(** [PWM0_set_freq] *)
Definition PWM0_set_freq (hz : Q) : M Z :=
  m <- get;;
  if String.eqb (g_pwm_dir m) "" || Qle_bool hz 0 then ret (-1) else
  match path_join2 (g_pwm_dir m) "/enable", path_join2 (g_pwm_dir m) "/period",
        path_join2 (g_pwm_dir m) "/duty_cycle" with
  | Some enable, Some period, Some dutyf =>
      let new_per := period_of_hz hz in
      let ratio := g_duty_frac m in
      let new_dty := bounded_dc_from_ratio ratio new_per in
      let commit := set_period new_per;;
                    set_frac (inject_Z new_dty / inject_Z new_per)%Q;; ret 0 in
      let fallback := freq_fallback 2 enable period dutyf new_per new_dty in
      was_enabled <- read_ll enable;;
      (if was_enabled =? 0 then (write_ll enable 1;; msleep 2) else ret tt);;
      (* FAST PATH A *)
      ra <- write_ll period new_per;;
      rb <- (if ra =? 0 then write_ll dutyf new_dty else ret (-1));;
      if (ra =? 0) && (rb =? 0) then commit else
      (* FAST PATH B *)
      r1 <- write_ll dutyf 1;;
      if negb (r1 =? 0) then fallback else
      r2 <- write_ll period new_per;;
      if negb (r2 =? 0) then fallback else
      r3 <- write_ll dutyf new_dty;;
      if negb (r3 =? 0) then fallback else commit
  | _, _, _ => ret (-1)
  end.

(** [PWM0_set_duty] *)
Definition PWM0_set_duty (duty : Q) : M Z :=
  m <- get;;
  if String.eqb (g_pwm_dir m) "" then ret (-1) else
  (if g_period_ns m <=? 0 then
     match path_join2 (g_pwm_dir m) "/period" with
     | None => ret false
     | Some period =>
         p <- read_ll period;;
         if p <=? 0 then ret false else (set_period p;; ret true)
     end
   else ret true) >>= fun have_period =>
  if negb have_period then ret (-1) else
  set_frac duty;;
  m <- get;;
  match path_join2 (g_pwm_dir m) "/duty_cycle" with
  | None => ret (-1)
  | Some dutyf =>
    let dc := bounded_dc_from_ratio (g_duty_frac m) (g_period_ns m) in
    r <- write_ll dutyf dc;;
    if r =? 0 then ret 0 else
    match path_join2 (g_pwm_dir m) "/enable" with
    | None => ret (-1)
    | Some enable =>
      was_enabled <- read_ll enable;;
      let was_enabled := if was_enabled <? 0 then 1 else was_enabled in
      write_ll enable 0;; msleep 1;;
      write_ll dutyf 1;;
      r2 <- write_ll dutyf dc;;
      (if negb (was_enabled =? 0) then write_ll enable 1;; ret tt else ret tt);;
      if r2 =? 0 then ret 0 else ret (-1)
    end
  end.

(** [PWM0_cleanup] *)
Definition PWM0_cleanup : M unit :=
  m <- get;;
  if String.eqb (g_pwm_dir m) "" then ret tt else
  match path_join2 (g_pwm_dir m) "/enable" with
  | Some enable => write_str enable "0";; ret tt
  | None => ret tt
  end.

End Program.

(** The writes of a trace, in order. *)
Fixpoint writes (tr : list io) : list (string * wval * bool) :=
  match tr with
  | [] => []
  | IOWrite p v ok :: tr' => (p, v, ok) :: writes tr'
  | IOSleep _ :: tr' => writes tr'
  end.

(** The bring-up protocol of the specification: each attempt runs the
    5-step sequence (disable, duty 1 ns, period, duty, enable), outcomes of
    steps 1-2 ignored; a failure of step 3, 4 or 5 ends the attempt and the
    whole sequence is retried, at most [n] attempts in all; the result is
    an error only when all attempts failed. *)
Section Bringup.
Variables (en pe du : string) (per dty : Z).

Inductive bringup : nat -> list (string * wval * bool) -> Z -> Prop :=
| bu_exhausted : bringup 0 [] (-1)
| bu_ok n o1 o2 :
    bringup (S n) [(en, VNum 0, o1); (du, VNum 1, o2); (pe, VNum per, true);
                   (du, VNum dty, true); (en, VNum 1, true)] 0
| bu_fail3 n o1 o2 ws r :
    bringup n ws r ->
    bringup (S n) ([(en, VNum 0, o1); (du, VNum 1, o2); (pe, VNum per, false)]
                   ++ ws) r
| bu_fail4 n o1 o2 ws r :
    bringup n ws r ->
    bringup (S n) ([(en, VNum 0, o1); (du, VNum 1, o2); (pe, VNum per, true);
                    (du, VNum dty, false)] ++ ws) r
| bu_fail5 n o1 o2 ws r :
    bringup n ws r ->
    bringup (S n) ([(en, VNum 0, o1); (du, VNum 1, o2); (pe, VNum per, true);
                    (du, VNum dty, true); (en, VNum 1, false)] ++ ws) r.
End Bringup.

(** Process start: the initialisers of the globals of [PWM0.c]. *)
Definition m_fresh : machine := mkM [] O 0 "" 0 (1 # 2).

(** A board whose [pwmchip0/pwm0] is exported and accepts every write. *)
Definition env_all_ok : env :=
  mkEnv (Some ["/sys/class/pwm/pwmchip0"%string]) (fun _ _ => true)
        (fun _ => true) (fun _ _ => 1).

(** A board where the export of [pwmchip0/pwm0] never completes. *)
Definition env_no_pwm0 : env :=
  mkEnv (Some ["/sys/class/pwm/pwmchip0"%string]) (fun _ _ => false)
        (fun _ => true) (fun _ _ => 1).

End PWM0.

(** ** Servo ([servo.c])

    The [Servo] structure the calls receive is part of the state; the
    model takes the pointer [s] non-NULL ([servo_left], [servo_right] and
    [servo_stop] read [*s] before [servo_set_pulse_ns] tests it).  C [int]
    arithmetic is exact here; the theorems about [pct_to_ns] assume bounds
    for which it does not overflow.  The [snprintf] buffers are large
    enough for every path built from two [int]s, so no path is truncated. *)
Module Servo.

Definition EIO : Z := 5.
Definition EINVAL : Z := 22.
Definition ENOENT : Z := 2.
Definition EBUSY : Z := 16.

(** [typedef struct { ... } Servo;] *)
Record servo := mkServo {
  chip : Z;
  channel : Z;
  period_ns : Z;
  neutral_ns : Z;
  min_ns : Z;
  max_ns : Z;
  base : string;
  enabled : bool
}.

(** A zero-filled [Servo] ([memset], or a [static] instance). *)
Definition servo_zero : servo := mkServo 0 0 0 0 0 0 "" false.

(** [%d] / [%lld] formatting. *)
Definition digit (d : Z) : ascii := ascii_of_nat (48 + Z.to_nat d).

Fixpoint dec_pos (fuel : nat) (n : Z) (acc : string) : string :=
  match fuel with
  | O => acc
  | S f =>
    let acc' := String (digit (n mod 10)) acc in
    if n <? 10 then acc' else dec_pos f (n / 10) acc'
  end.

Definition dec (z : Z) : string :=
  if z <? 0 then ("-" ++ dec_pos 20 (- z) "")%string else dec_pos 20 z "".

(** Observable effects, in chronological order: a write of a string to a
    path with the value [write_str] returned, or a sleep. *)
Inductive sio :=
| SWrite (path v : string) (rc : Z)
| SSleep (ms : Z).

(** The environment: [atoi(getenv("PWM0_CHIP"))] when that variable is
    set and non-empty, whether a path exists at a given time (ms), and the
    value [write_str] returns for the n-th write (0 or [-errno]). *)
Record senv := mkSEnv {
  se_chip_env : option Z;
  se_exists : string -> Z -> bool;
  se_write_rc : nat -> Z
}.

Record sstate := mkSS {
  sv : servo;
  strace : list sio;
  snw : nat;
  sclock : Z
}.

Definition SM (A : Type) := sstate -> A * sstate.
Definition sret {A} (a : A) : SM A := fun st => (a, st).
Definition sbind {A B} (x : SM A) (k : A -> SM B) : SM B :=
  fun st => let '(a, st') := x st in k a st'.

Declare Scope servo_scope.
Notation "x <- c ;; k" := (sbind c (fun x => k))
  (at level 61, c at next level, right associativity) : servo_scope.
Notation "c ;; k" := (sbind c (fun _ => k))
  (at level 61, right associativity) : servo_scope.
Local Open Scope servo_scope.

Definition sget : SM servo := fun st => (sv st, st).
Definition sput (s : servo) : SM unit :=
  fun st => (tt, mkSS s (strace st) (snw st) (sclock st)).

Definition set_base (b : string) (s : servo) : servo :=
  mkServo (chip s) (channel s) (period_ns s) (neutral_ns s) (min_ns s)
          (max_ns s) b (enabled s).
Definition set_enabled (e : bool) (s : servo) : servo :=
  mkServo (chip s) (channel s) (period_ns s) (neutral_ns s) (min_ns s)
          (max_ns s) (base s) e.

Section Program.
Variable E : senv.

(** [write_str] *)
Definition write_str (path v : string) : SM Z :=
  fun st =>
    let rc := se_write_rc E (snw st) in
    (rc, mkSS (sv st) (strace st ++ [SWrite path v rc]) (S (snw st)) (sclock st)).

(** [write_int] *)
Definition write_int (path : string) (v : Z) : SM Z := write_str path (dec v).

(** [exists] *)
Definition exists_ (p : string) : SM bool :=
  fun st => (se_exists E p (sclock st), st).

Definition nanosleep (ms : Z) : SM unit :=
  fun st => (tt, mkSS (sv st) (strace st ++ [SSleep ms]) (snw st) (sclock st + ms)).

(** The wait loop of [export_pwm]: at most [n] sleeps of 20 ms while the
    directory is missing. *)
Fixpoint export_wait (n : nat) (p : string) : SM unit :=
  match n with
  | O => sret tt
  | S n' =>
    e <- exists_ p;;
    if e then sret tt else nanosleep 20;; export_wait n' p
  end.

Definition chip_dir (c : Z) : string := ("/sys/class/pwm/pwmchip" ++ dec c)%string.

(** [export_pwm] *)
Definition export_pwm (c ch : Z) : SM Z :=
  let chip_path := chip_dir c in
  e <- exists_ chip_path;;
  if negb e then sret (- ENOENT) else
  let pwm_path := (chip_path ++ "/pwm" ++ dec ch)%string in
  e <- exists_ pwm_path;;
  if e then sret 0 else
  rc <- write_int (chip_path ++ "/export") ch;;
  if rc =? - EBUSY then sret 0 else
  export_wait 50 pwm_path;;
  e <- exists_ pwm_path;;
  sret (if e then 0 else rc).

(** [clamp] *)
Definition clamp (v lo hi : Z) : Z :=
  if v <? lo then lo else if hi <? v then hi else v.

(** [pct_to_ns] *)
Definition pct_to_ns (s : servo) (pct dir : Z) : Z :=
  let pct := clamp pct 0 100 in
  let span := max_ns s - neutral_ns s in
  let span := if span <? 0 then - span else span in
  let delta := Z.quot (span * pct) 100 in
  if 0 <=? dir then neutral_ns s + delta else neutral_ns s - delta.

(** [servo_init] *)
Definition servo_init (c ch per neutral mn mx : Z) : SM Z :=
  let c := if c <? 0 then match se_chip_env E with Some v => v | None => 0 end
           else c in
  sput (mkServo c ch per neutral mn mx "" false);;
  rc <- export_pwm c ch;;
  if negb (rc =? 0) then sret rc else
  s <- sget;;
  let b := (chip_dir c ++ "/pwm" ++ dec ch)%string in
  sput (set_base b s);;
  let p_period := (b ++ "/period")%string in
  let p_enable := (b ++ "/enable")%string in
  let p_duty := (b ++ "/duty_cycle")%string in
  let p_polarity := (b ++ "/polarity")%string in
  write_int p_enable 0;;
  write_int p_duty 1;;
  e <- exists_ p_polarity;;
  (if e then write_str p_polarity "normal";; sret tt else sret tt);;
  rc <- write_int p_period per;;
  if negb (rc =? 0) then sret rc else
  rc <- write_int p_duty neutral;;
  if negb (rc =? 0) then sret rc else
  rc <- write_int p_enable 1;;
  if negb (rc =? 0) then sret rc else
  s <- sget;;
  sput (set_enabled true s);;
  sret 0.

(** [servo_set_pulse_ns] *)
Definition servo_set_pulse_ns (duty_ns : Z) : SM Z :=
  s <- sget;;
  if negb (enabled s) then sret (- EIO) else
  let duty_ns := clamp duty_ns (min_ns s) (max_ns s) in
  write_int (base s ++ "/duty_cycle") duty_ns.

(** [servo_right], [servo_left], [servo_stop] *)
Definition servo_right (speed_pct : Z) : SM Z :=
  s <- sget;; servo_set_pulse_ns (pct_to_ns s speed_pct 1).
Definition servo_left (speed_pct : Z) : SM Z :=
  s <- sget;; servo_set_pulse_ns (pct_to_ns s speed_pct (-1)).
Definition servo_stop : SM Z :=
  s <- sget;; servo_set_pulse_ns (neutral_ns s).

(** [servo_close] *)
Definition servo_close : SM Z :=
  s <- sget;;
  write_int (base s ++ "/enable") 0;;
  write_int (chip_dir (chip s) ++ "/unexport") (channel s);;
  sput (set_enabled false s);;
  sret 0.

End Program.

(** An enabled servo on [pwmchip0/pwm0] with the given bounds, period
    20 ms. *)
Definition st_enabled (neutral mn mx : Z) : sstate :=
  mkSS (mkServo 0 0 20000000 neutral mn mx "/sys/class/pwm/pwmchip0/pwm0" true)
       [] O 0.

(** A board on which every path exists and every write succeeds. *)
Definition senv_ok : senv := mkSEnv None (fun _ _ => true) (fun _ => 0).

End Servo.

(** ** Encoder set-up and tear-down ([rotary.c])

    The globals [g_run], [fd_a], [fd_b], [fd_sw] beside the state the
    polling thread shares ([g_pos], [g_button_edge]).  The environment
    answers [access(path, F_OK)], whether [sysfs_write] of a string to a
    path succeeds (open, and a full write), what [open(path, O_RDONLY)]
    returns, and whether [pthread_create] succeeds. *)
Module RotaryApi.
Import Rotary.

Definition ENC_A_GPIO : Z := 439.
Definition ENC_B_GPIO : Z := 336.
Definition ENC_SW_GPIO : Z := 434.

Inductive gio :=
| GWrite (path s : string) (ok : bool)
| GOpen (path : string) (fd : Z)
| GClose (fd : Z)
| GSpawn (ok : bool)
| GJoin.

Record genv := mkGEnv {
  ge_access : string -> bool;
  ge_write_ok : string -> string -> bool;
  ge_open : string -> Z;
  ge_spawn_ok : bool
}.

Record api := mkApi {
  g_run : Z;
  enc : state;
  fd_a : Z;
  fd_b : Z;
  fd_sw : Z;
  gtrace : list gio
}.

Definition log (a : api) (e : gio) : api :=
  mkApi (g_run a) (enc a) (fd_a a) (fd_b a) (fd_sw a) (gtrace a ++ [e]).

Definition gpio_dir (n : Z) : string := ("/sys/class/gpio/gpio" ++ Servo.dec n)%string.

Section Api.
Variable G : genv.

(** [sysfs_write] *)
Definition sysfs_write (path s : string) (a : api) : Z * api :=
  let ok := ge_write_ok G path s in
  (if ok then 0 else -1, log a (GWrite path s ok)).

(** [gpio_export] *)
Definition gpio_export (n : Z) (a : api) : Z * api :=
  if ge_access G (gpio_dir n) then (0, a)
  else sysfs_write "/sys/class/gpio/export" (Servo.dec n) a.

(** [gpio_set_dir_in] *)
Definition gpio_set_dir_in (n : Z) (a : api) : Z * api :=
  sysfs_write (gpio_dir n ++ "/direction") "in" a.

(** The [value] file of a line. *)
Definition value_path (n : Z) : string := (gpio_dir n ++ "/value")%string.

(** [gpio_open_value] *)
Definition gpio_open_value (n : Z) (a : api) : Z * api :=
  let p := (gpio_dir n ++ "/value")%string in
  let fd := ge_open G p in
  (fd, log a (GOpen p fd)).

(** [f(A) != 0 || f(B) != 0 || f(SW) != 0], evaluated left to right. *)
Definition each3 (f : Z -> api -> Z * api) (a : api) : bool * api :=
  let '(r1, a) := f ENC_A_GPIO a in
  if negb (r1 =? 0) then (true, a) else
  let '(r2, a) := f ENC_B_GPIO a in
  if negb (r2 =? 0) then (true, a) else
  let '(r3, a) := f ENC_SW_GPIO a in
  (negb (r3 =? 0), a).

(** [rotaryEncoder_init] *)
Definition rotaryEncoder_init (a : api) : Z * api :=
  if negb (g_run a =? 0) then (0, a) else
  let '(bad, a) := each3 gpio_export a in
  if bad then (-1, a) else
  let '(bad, a) := each3 gpio_set_dir_in a in
  if bad then (-1, a) else
  let '(fa, a) := gpio_open_value ENC_A_GPIO a in
  let a := mkApi (g_run a) (enc a) fa (fd_b a) (fd_sw a) (gtrace a) in
  let '(fb, a) := gpio_open_value ENC_B_GPIO a in
  let a := mkApi (g_run a) (enc a) (fd_a a) fb (fd_sw a) (gtrace a) in
  let '(fs, a) := gpio_open_value ENC_SW_GPIO a in
  let a := mkApi (g_run a) (enc a) (fd_a a) (fd_b a) fs (gtrace a) in
  if (fd_a a <? 0) || (fd_b a <? 0) || (fd_sw a <? 0) then (-1, a) else
  let s := enc a in
  let a := mkApi 1 (mkState 0 0 (last s) (last_sw s) (last_sw_time s))
                 (fd_a a) (fd_b a) (fd_sw a) (gtrace a) in
  if ge_spawn_ok G then (0, log a (GSpawn true))
  else let a := log a (GSpawn false) in
       (-1, mkApi 0 (enc a) (fd_a a) (fd_b a) (fd_sw a) (gtrace a)).

End Api.

Definition close_fd (fd : Z) (a : api) : api :=
  if 0 <=? fd then log a (GClose fd) else a.

(** [rotaryEncoder_cleanup] *)
Definition rotaryEncoder_cleanup (a : api) : api :=
  if g_run a =? 0 then a else
  let a := log (mkApi 0 (enc a) (fd_a a) (fd_b a) (fd_sw a) (gtrace a)) GJoin in
  let a := close_fd (fd_sw a) (close_fd (fd_b a) (close_fd (fd_a a) a)) in
  mkApi (g_run a) (enc a) (-1) (-1) (-1) (gtrace a).

(** The start of [encoder_thread], before its loop: the first samples of
    the three lines, and [last_sw_time = {0}]. *)
Definition encoder_thread_start (s : state) (ra rb rsw : read_result) : state :=
  let a := sysfs_read_int ra in
  let b := sysfs_read_int rb in
  mkState (g_pos s) (g_button_edge s) (Z.lor (Z.shiftl a 1) b)
          (sysfs_read_int rsw) (mkTs 0 0).

(** The state of a fresh process: all globals at their initialisers. *)
Definition api_fresh : api := mkApi 0 (mkState 0 0 0 0 (mkTs 0 0)) (-1) (-1) (-1) [].

(** A board on which every step of the set-up succeeds except opening the
    value file of line B. *)
Definition genv_no_b : genv :=
  mkGEnv (fun _ => false) (fun _ _ => true)
         (fun p => if String.eqb p (gpio_dir ENC_B_GPIO ++ "/value") then -1 else 3)
         true.

(** A board on which every step of the set-up succeeds; the value files of
    lines A, B and SW open as descriptors 3, 4 and 5. *)
Definition genv_ok : genv :=
  mkGEnv (fun _ => false) (fun _ _ => true)
         (fun p => if String.eqb p (gpio_dir ENC_A_GPIO ++ "/value") then 3
                   else if String.eqb p (gpio_dir ENC_B_GPIO ++ "/value") then 4
                   else 5)
         true.

End RotaryApi.

(** ** The application loop ([app/src/main.c])

    [main] drives the encoder and the servo.  The sockets are an
    environment: whether [send_start_to_host] returns 0, and what
    [recvfrom] delivers ([None] for [n <= 0], otherwise the received text
    as [strcmp] sees it).  Sleeps and [printf]/[perror] have no effect on
    the state and are left out; the polling thread's ticks between two
    iterations are applied with [Rotary.run]. *)
Module Main.
Import Servo.

Definition SERVO_PERIOD_NS : Z := 20000000.
Definition SERVO_NEUTRAL_NS : Z := 1600000.
Definition SERVO_MIN_NS : Z := 1200000.
Definition SERVO_MAX_NS : Z := 2000000.

Record mstate := mkMS {
  m_enc : Rotary.state;
  m_srv : sstate;
  waiting : bool;
  sends : nat
}.

Section Loop.
Variable E : senv.

(** [servo_to_neutral], [servo_to_paper], [servo_to_plastic]: the result
    only goes to [perror]. *)
Definition servo_to_neutral (st : sstate) : sstate :=
  snd (servo_set_pulse_ns E SERVO_NEUTRAL_NS st).
Definition servo_to_paper (st : sstate) : sstate :=
  snd (servo_set_pulse_ns E SERVO_MIN_NS st).
Definition servo_to_plastic (st : sstate) : sstate :=
  snd (servo_set_pulse_ns E SERVO_MAX_NS st).

(** One iteration of the [while (keep_running)] loop. *)
Definition main_iter (send_ok : bool) (recv : option string) (ms : mstate) : mstate :=
  let '(w, enc, n) :=
    if waiting ms then (true, m_enc ms, sends ms)
    else let '(pressed, enc) := Rotary.button_pressed (m_enc ms) in
         if pressed then (send_ok, enc, S (sends ms)) else (false, enc, sends ms) in
  if negb w then mkMS enc (m_srv ms) w n else
  match recv with
  | Some msg =>
      if String.eqb msg "paper" then
        mkMS enc (servo_to_neutral (servo_to_paper (m_srv ms))) false n
      else if String.eqb msg "plastic" then
        mkMS enc (servo_to_neutral (servo_to_plastic (m_srv ms))) false n
      else mkMS enc (m_srv ms) w n
  | None => mkMS enc (m_srv ms) w n
  end.

End Loop.

(** The start-up of [main] up to the loop: encoder, servo at chip -1 and
    channel 0 with the bounds above, neutral, result socket
    ([sock_ok]: [create_result_socket() >= 0]).  Returns the exit code
    when [main] returns before the loop. *)
Definition main_start (G : RotaryApi.genv) (E : senv) (sock_ok : bool)
    (a : RotaryApi.api) (st : sstate) : option Z * RotaryApi.api * sstate :=
  let '(r, a) := RotaryApi.rotaryEncoder_init G a in
  if negb (r =? 0) then (Some 1, a, st) else
  let '(r, st) := servo_init E (-1) 0 SERVO_PERIOD_NS SERVO_NEUTRAL_NS
                             SERVO_MIN_NS SERVO_MAX_NS st in
  if negb (r =? 0) then (Some 1, RotaryApi.rotaryEncoder_cleanup a, st) else
  let st := servo_to_neutral E st in
  if sock_ok then (None, a, st)
  else (Some 1, RotaryApi.rotaryEncoder_cleanup a, snd (servo_close E st)).

End Main.

(** ** Proofs about the rotary encoder *)
Module RotaryFacts.
Import Rotary.

Lemma wrap32_add_idemp (x y : Z) : wrap32 (wrap32 x + y) = wrap32 (x + y).
Proof.
  unfold wrap32.
  replace (((x + 2 ^ 31) mod 2 ^ 32 - 2 ^ 31 + y + 2 ^ 31))
    with ((x + 2 ^ 31) mod 2 ^ 32 + y) by lia.
  rewrite Z.add_mod_idemp_l by lia.
  f_equal. f_equal. lia.
Qed.

Lemma tick_pos s ra rb rsw now :
  g_pos (tick s ra rb rsw now) =
  apply_delta (Z.lor (Z.shiftl (last s) 2)
                 (Z.lor (Z.shiftl (sysfs_read_int ra) 1) (sysfs_read_int rb)))
              (g_pos s).
Proof. unfold tick. destruct (negb _); reflexivity. Qed.

Lemma tick_last s ra rb rsw now :
  last (tick s ra rb rsw now) =
  Z.lor (Z.shiftl (sysfs_read_int ra) 1) (sysfs_read_int rb).
Proof. unfold tick. destruct (negb _); reflexivity. Qed.

Lemma tick_gray_next s rsw now :
  0 <= last s <= 3 ->
  let g' := gray_next (last s) in
  g_pos (tick s (line (Z.shiftr g' 1)) (line (Z.land g' 1)) rsw now)
    = wrap32 (g_pos s + 1) /\
  last (tick s (line (Z.shiftr g' 1)) (line (Z.land g' 1)) rsw now) = g'.
Proof.
  intros H g'. rewrite tick_pos, tick_last. subst g'.
  assert (last s = 0 \/ last s = 1 \/ last s = 2 \/ last s = 3) as Hc by lia.
  destruct Hc as [-> | [-> | [-> | ->]]]; split; reflexivity.
Qed.

Lemma tick_gray_prev s rsw now :
  0 <= last s <= 3 ->
  let g' := gray_prev (last s) in
  g_pos (tick s (line (Z.shiftr g' 1)) (line (Z.land g' 1)) rsw now)
    = wrap32 (g_pos s - 1) /\
  last (tick s (line (Z.shiftr g' 1)) (line (Z.land g' 1)) rsw now) = g'.
Proof.
  intros H g'. rewrite tick_pos, tick_last. subst g'.
  assert (last s = 0 \/ last s = 1 \/ last s = 2 \/ last s = 3) as Hc by lia.
  destruct Hc as [-> | [-> | [-> | ->]]]; split; reflexivity.
Qed.

Lemma gray_next_range g : 0 <= gray_next g <= 3.
Proof. unfold gray_next. repeat destruct (Z.eqb _ _); lia. Qed.

Lemma gray_prev_range g : 0 <= gray_prev g <= 3.
Proof. unfold gray_prev. repeat destruct (Z.eqb _ _); lia. Qed.

Definition int_range (z : Z) : Prop := -2^31 <= z < 2^31.

Lemma wrap32_range z : int_range (wrap32 z).
Proof.
  unfold int_range, wrap32.
  pose proof (Z.mod_pos_bound (z + 2^31) (2^32)). lia.
Qed.

Lemma wrap32_id z : int_range z -> wrap32 z = z.
Proof.
  unfold int_range, wrap32. intros H.
  rewrite Z.mod_small by lia. lia.
Qed.

Lemma apply_delta_range d p : int_range p -> int_range (apply_delta d p).
Proof.
  unfold apply_delta. destruct (Z.eqb _ 0); auto using wrap32_range.
Qed.

Lemma run_pos_range s es :
  int_range (g_pos s) -> int_range (g_pos (snd (run s es))).
Proof.
  revert s. induction es as [|e es IH]; intros s H; simpl; auto.
  destruct e as [ra rb rsw now|].
  - apply IH. rewrite tick_pos. now apply apply_delta_range.
  - destruct (run _ es) as [rs s2] eqn:E. simpl.
    change s2 with (snd (rs, s2)). rewrite <- E. apply IH. exact H.
Qed.

Lemma run_gray_next_mod s sws :
  0 <= last s <= 3 ->
  wrap32 (g_pos (snd (run s (gray_events gray_next (last s) sws))))
    = wrap32 (g_pos s + Z.of_nat (List.length sws)).
Proof.
  revert s. induction sws as [|[rsw now] t IH]; intros s H; simpl.
  - f_equal. lia.
  - destruct (tick_gray_next s rsw now H) as [Hp Hl].
    set (s' := tick s _ _ rsw now) in *.
    rewrite <- Hl. rewrite IH by (rewrite Hl; apply gray_next_range).
    rewrite Hp, wrap32_add_idemp. f_equal. lia.
Qed.

Lemma run_gray_prev_mod s sws :
  0 <= last s <= 3 ->
  wrap32 (g_pos (snd (run s (gray_events gray_prev (last s) sws))))
    = wrap32 (g_pos s - Z.of_nat (List.length sws)).
Proof.
  revert s. induction sws as [|[rsw now] t IH]; intros s H; simpl.
  - f_equal. lia.
  - destruct (tick_gray_prev s rsw now H) as [Hp Hl].
    set (s' := tick s _ _ rsw now) in *.
    rewrite <- Hl. rewrite IH by (rewrite Hl; apply gray_prev_range).
    replace (g_pos s' - _) with (g_pos s' + - Z.of_nat (List.length t)) by lia.
    rewrite Hp, wrap32_add_idemp. f_equal. lia.
Qed.

Lemma tick_code s a b ra rb rsw now :
  0 <= last s <= 3 -> sysfs_read_int ra = a -> sysfs_read_int rb = b ->
  (a = 0 \/ a = 1) -> (b = 0 \/ b = 1) ->
  let code := 4 * last s + 2 * a + b in
  g_pos (tick s ra rb rsw now) =
    if forward_code code then wrap32 (g_pos s + 1)
    else if backward_code code then wrap32 (g_pos s - 1)
    else g_pos s.
Proof.
  intros Hl Ha Hb Ha' Hb' code. subst code. rewrite tick_pos, Ha, Hb.
  assert (last s = 0 \/ last s = 1 \/ last s = 2 \/ last s = 3) as Hc by lia.
  destruct Hc as [-> | [-> | [-> | ->]]];
    destruct Ha' as [-> | ->]; destruct Hb' as [-> | ->]; reflexivity.
Qed.

(** [C1] Of the 16 transition codes [(last << 2) | state] built from two
    consecutive 2-bit samples, the 4 forward Gray codes 0x1, 0x7, 0xE, 0x8
    add 1 to the position (in [atomic_int] arithmetic), the 4 reverse codes
    0x2, 0x4, 0xD, 0xB subtract 1, and the other 8 leave it unchanged; so a
    run of n forward transitions 00->01->11->10->00... adds exactly n, and a
    run of n reverse transitions subtracts exactly n. *)
Theorem quadrature_transition_table :
  List.length (filter forward_code all_codes) = 4%nat /\
  List.length (filter backward_code all_codes) = 4%nat /\
  List.length (filter (fun c => negb (forward_code c || backward_code c))
                 all_codes) = 8%nat /\
  (forall s a b ra rb rsw now,
     0 <= last s <= 3 -> sysfs_read_int ra = a -> sysfs_read_int rb = b ->
     (a = 0 \/ a = 1) -> (b = 0 \/ b = 1) ->
     let code := 4 * last s + 2 * a + b in
     g_pos (tick s ra rb rsw now) =
       if forward_code code then wrap32 (g_pos s + 1)
       else if backward_code code then wrap32 (g_pos s - 1)
       else g_pos s) /\
  (forall s sws,
     0 <= last s <= 3 -> int_range (g_pos s) ->
     g_pos (snd (run s (gray_events gray_next (last s) sws)))
       = wrap32 (g_pos s + Z.of_nat (List.length sws))) /\
  (forall s sws,
     0 <= last s <= 3 -> int_range (g_pos s) ->
     g_pos (snd (run s (gray_events gray_prev (last s) sws)))
       = wrap32 (g_pos s - Z.of_nat (List.length sws))).
Proof.
  split; [reflexivity|]. split; [reflexivity|]. split; [reflexivity|].
  split; [exact tick_code|]. split.
  - intros s sws Hl Hr. rewrite <- run_gray_next_mod by exact Hl.
    symmetry. apply wrap32_id, run_pos_range, Hr.
  - intros s sws Hl Hr. rewrite <- run_gray_prev_mod by exact Hl.
    symmetry. apply wrap32_id, run_pos_range, Hr.
Qed.

(** [C2] (as corrected) A tick on which the sampled switch level differs
    from the tracked one records the new level and the current time as the
    last-change time, on every observed change (rising or falling,
    registered or not); it sets the one-shot flag exactly when the new level
    is pressed (1) and more than 50 ms elapsed since the previous observed
    change, and otherwise leaves the flag as it was.  A tick with an
    unchanged level leaves the level, the last-change time and the flag. *)
Theorem debounce_on_level_change s ra rb rsw now :
  let sw := sysfs_read_int rsw in
  let s' := tick s ra rb rsw now in
  (sw <> last_sw s ->
     last_sw s' = sw /\ last_sw_time s' = now /\
     g_button_edge s' =
       (if Z.eqb sw 1 && Z.ltb 50 (dt_ms now (last_sw_time s)) then 1
        else g_button_edge s)) /\
  (sw = last_sw s ->
     last_sw s' = last_sw s /\ last_sw_time s' = last_sw_time s /\
     g_button_edge s' = g_button_edge s).
Proof.
  intros sw s'. subst s'. unfold tick. fold sw. split; intros H.
  - rewrite (proj2 (Z.eqb_neq sw (last_sw s)) H). simpl. auto.
  - rewrite H, Z.eqb_refl. simpl. auto.
Qed.

Definition C2_s0 : state := mkState 0 0 0 1 (mkTs 1 0).

Lemma debounce_on_level_change_witness :
  (sysfs_read_int (line 0) <> last_sw C2_s0 ->
   last_sw (tick C2_s0 (line 0) (line 0) (line 0) (mkTs 1 40000000)) = 0) /\
  (sysfs_read_int (line 1) = last_sw C2_s0 ->
   g_button_edge (tick C2_s0 (line 0) (line 0) (line 1) (mkTs 2 0)) = 0).
Proof.
  split.
  - intro H. apply (proj1 (debounce_on_level_change C2_s0 (line 0) (line 0)
                      (line 0) (mkTs 1 40000000)) H).
  - intro H. apply (proj2 (debounce_on_level_change C2_s0 (line 0) (line 0)
                      (line 1) (mkTs 2 0)) H).
Defined.

(** [C2] counterexample: a press registered at 1.000 s, a release observed
    at 1.040 s and a new press at 1.070 s.  The falling edge moves the
    timestamp the debounce compares against (1.000 s -> 1.040 s), and the
    press at 1.070 s, 70 ms after the last registered edge, is not
    registered because only 30 ms passed since the release. *)
Lemma debounce_falling_edge_moves_timestamp :
  let s1 := tick (mkState 0 0 0 0 (mkTs 0 0))
              (line 0) (line 0) (line 1) (mkTs 1 0) in
  let s2 := tick (snd (button_pressed s1))
              (line 0) (line 0) (line 0) (mkTs 1 40000000) in
  let s3 := tick s2 (line 0) (line 0) (line 1) (mkTs 1 70000000) in
  g_button_edge s1 = 1 /\ last_sw_time s1 = mkTs 1 0 /\
  g_button_edge s2 = 0 /\ last_sw_time s2 = mkTs 1 40000000 /\
  g_button_edge s3 = 0.
Proof. vm_compute. repeat split. Qed.

Lemma pos_delta_neg d : d < 0 -> pos_delta d = 0.
Proof.
  intro H. unfold pos_delta.
  repeat match goal with
  | |- context [Z.eqb d ?k] => rewrite (proj2 (Z.eqb_neq d k)) by lia
  end. reflexivity.
Qed.

Lemma sample_fail_neg a b :
  a = -1 \/ b = -1 -> b = -1 \/ b = 0 \/ b = 1 -> Z.lor (Z.shiftl a 1) b < 0.
Proof.
  intros H Hb. apply Z.lor_neg. destruct H as [-> | ->].
  - left. reflexivity.
  - right. lia.
Qed.

Lemma sysfs_read_int_cases r :
  sysfs_read_int r = -1 \/ sysfs_read_int r = 0 \/ sysfs_read_int r = 1.
Proof.
  destruct r as [|c rest]; simpl; auto. destruct (Ascii.eqb _ _); auto.
Qed.

(** [C3] (as corrected) A tick is not skipped when a read fails: the failed
    read yields -1 and is processed like a sample, and the tick has no
    error outcome.  The A/B samples, failed or not, become [last]; a failed
    read of line A or B makes it negative and leaves the position unchanged
    on that tick (the transition code is negative and matches no table
    entry).  A failed read of the switch is taken as level -1: it never sets
    the button-edge flag, and when the previous level was not -1 it is a
    level change that stores -1 in [last_sw] and [now] in [last_sw_time].
    Lines read successfully on the same tick are processed as usual: the
    switch part of the tick does not depend on the A/B reads, and the
    position part does not depend on the switch read. *)
Theorem read_failure_tick s ra rb rsw now :
  let s' := tick s ra rb rsw now in
  last s' = Z.lor (Z.shiftl (sysfs_read_int ra) 1) (sysfs_read_int rb) /\
  ((ra = RFail \/ rb = RFail) -> last s' < 0 /\ g_pos s' = g_pos s) /\
  (rsw = RFail ->
     g_button_edge s' = g_button_edge s /\
     if last_sw s =? -1 then last_sw s' = -1 /\ last_sw_time s' = last_sw_time s
     else last_sw s' = -1 /\ last_sw_time s' = now) /\
  (forall ra' rb',
     let t := tick s ra' rb' rsw now in
     g_button_edge s' = g_button_edge t /\ last_sw s' = last_sw t /\
     last_sw_time s' = last_sw_time t) /\
  (forall rsw',
     g_pos s' = g_pos (tick s ra rb rsw' now) /\ last s' = last (tick s ra rb rsw' now)).
Proof.
  cbv zeta. split; [apply tick_last|]. split; [|split; [|split]].
  - intros H.
    assert (Hn : Z.lor (Z.shiftl (sysfs_read_int ra) 1) (sysfs_read_int rb) < 0).
    { apply sample_fail_neg; [|apply sysfs_read_int_cases].
      destruct H as [-> | ->]; [left | right]; reflexivity. }
    rewrite tick_last, tick_pos. split; [exact Hn|].
    unfold apply_delta. rewrite pos_delta_neg; [reflexivity|].
    apply Z.lor_neg. right. exact Hn.
  - intros ->. unfold tick. cbv zeta. cbn [sysfs_read_int].
    destruct (last_sw s =? -1) eqn:E.
    + apply Z.eqb_eq in E. rewrite E. simpl. auto.
    + rewrite Z.eqb_sym, E. simpl. auto.
  - intros ra' rb'. unfold tick. cbv zeta.
    destruct (negb (sysfs_read_int rsw =? last_sw s)); auto.
  - intros rsw'. rewrite !tick_pos, !tick_last. auto.
Qed.

(** On [C2_s0] (switch level 1): a failed switch read at 2 s stores level -1
    and the time 2 s; a failed read of line A keeps the position. *)
Lemma read_failure_tick_witness :
  last_sw (tick C2_s0 (line 0) (line 1) RFail (mkTs 2 0)) = -1 /\
  last_sw_time (tick C2_s0 (line 0) (line 1) RFail (mkTs 2 0)) = mkTs 2 0 /\
  g_pos (tick C2_s0 RFail (line 1) (line 1) (mkTs 2 0)) = g_pos C2_s0.
Proof.
  destruct (proj1 (proj2 (proj2 (read_failure_tick C2_s0 (line 0) (line 1) RFail
                                   (mkTs 2 0)))) eq_refl) as [_ [H1 H2]].
  split; [exact H1|]. split; [exact H2|].
  exact (proj2 (proj1 (proj2 (read_failure_tick C2_s0 RFail (line 1) (line 1)
                                (mkTs 2 0))) (or_introl eq_refl))).
Defined.

(** [C3] counterexample: (1) the switch read fails while A/B show the
    forward transition 00 -> 01, and the position still moves; (2) with the
    button held pressed throughout, a switch-read failure at 1.000 s
    followed by a successful read of "pressed" at 1.100 s sets the flag
    with no new press. *)
Lemma read_failure_not_skipped :
  g_pos (tick (mkState 0 0 0 0 (mkTs 0 0)) (line 0) (line 1) RFail (mkTs 1 0))
    = 1 /\
  (let s0 := mkState 0 0 0 1 (mkTs 0 500000000) in
   let s1 := tick s0 (line 0) (line 0) RFail (mkTs 1 0) in
   let s2 := tick s1 (line 0) (line 0) (line 1) (mkTs 1 100000000) in
   g_button_edge s0 = 0 /\ g_button_edge s2 = 1).
Proof. vm_compute. repeat split. Qed.

Lemma run_held s es :
  last_sw s = 1 -> held es ->
  count_true (fst (run s es)) =
    if Z.eqb (g_button_edge s) 0 then 0%nat
    else if existsb is_take es then 1%nat else 0%nat.
Proof.
  revert s. induction es as [|e es IH]; intros s Hl Hh; simpl.
  - destruct (Z.eqb _ 0); reflexivity.
  - assert (Hh' : held es) by (intros ra rb rsw now Hin; eapply Hh; right; exact Hin).
    destruct e as [ra rb rsw now|].
    + assert (Hsw : sysfs_read_int rsw = 1) by (eapply Hh; left; reflexivity).
      rewrite IH; simpl; auto.
      * unfold tick. rewrite Hsw, Hl. simpl. reflexivity.
      * unfold tick. rewrite Hsw, Hl. simpl. reflexivity.
    + simpl. destruct (run _ es) as [rs s2] eqn:E. simpl.
      change rs with (fst (rs, s2)). rewrite <- E.
      unfold count_true in *. simpl.
      destruct (Z.eqb (g_button_edge s) 0) eqn:Hf; simpl.
      * specialize (IH (mkState (g_pos s) 0 (last s) (last_sw s) (last_sw_time s))
                      Hl Hh'). simpl in IH. rewrite IH. reflexivity.
      * specialize (IH (mkState (g_pos s) 0 (last s) (last_sw s) (last_sw_time s))
                      Hl Hh'). simpl in IH. rewrite IH. reflexivity.
Qed.



End RotaryFacts.

(** ** Proofs about PWM0 *)
Module PWM0Facts.
Import PWM0.

Lemma writes_app a b : writes (a ++ b) = writes a ++ writes b.
Proof.
  induction a as [|x a IH]; simpl; auto. destruct x; simpl; rewrite IH; auto.
Qed.

Lemma init_attempts_spec E n en pe du per dty m r m' :
  init_attempts E n en pe du per dty m = (r, m') ->
  exists nw, trace m' = trace m ++ nw /\
    bringup en pe du per dty n (writes nw) r /\
    g_pwm_dir m' = g_pwm_dir m /\
    (if r =? 0 then g_period_ns m' = per /\
                    g_duty_frac m' = (inject_Z dty / inject_Z per)%Q
     else g_period_ns m' = g_period_ns m /\ g_duty_frac m' = g_duty_frac m).
Proof.
  revert m. induction n as [|n IH]; intros m H.
  - simpl in H. injection H as <- <-. exists []. rewrite app_nil_r.
    repeat split; constructor.
  - cbn in H.
    destruct (env_write_ok E (S (S (nwrites m)))) eqn:E3; cbn in H.
    destruct (env_write_ok E (S (S (S (nwrites m))))) eqn:E4; cbn in H.
    destruct (env_write_ok E (S (S (S (S (nwrites m)))))) eqn:E5; cbn in H.
    + injection H as <- <-. eexists. split.
      * cbn. repeat rewrite <- app_assoc. reflexivity.
      * split; [apply bu_ok|]. split; [reflexivity|]. simpl. auto.
    + apply IH in H as [nw [Ht [Hb [Hd Hc]]]]. cbn in Ht, Hd, Hc.
      eexists. split; [rewrite Ht; repeat rewrite <- app_assoc; reflexivity|].
      split; [cbn; apply (bu_fail5 en pe du per dty n _ _ _ r Hb)|]. auto.
    + apply IH in H as [nw [Ht [Hb [Hd Hc]]]]. cbn in Ht, Hd, Hc.
      eexists. split; [rewrite Ht; repeat rewrite <- app_assoc; reflexivity|].
      split; [cbn; apply (bu_fail4 en pe du per dty n _ _ _ r Hb)|]. auto.
    + apply IH in H as [nw [Ht [Hb [Hd Hc]]]]. cbn in Ht, Hd, Hc.
      eexists. split; [rewrite Ht; repeat rewrite <- app_assoc; reflexivity|].
      split; [cbn; apply (bu_fail3 en pe du per dty n _ _ _ r Hb)|]. auto.
Qed.

Lemma string_app_nil_r (a : string) : (a ++ "")%string = a.
Proof. induction a as [|c a IH]; simpl; congruence. Qed.

(** Between [m] and [m']: the trace grows only by writes of "0" to the
    [export] file of a chip of [cs], and the cached period and ratio are
    kept. *)
Definition export_only (cs : list string) (m m' : machine) : Prop :=
  exists pre, trace m' = trace m ++ pre /\
    (forall p v ok, In (p, v, ok) (writes pre) ->
       v = VStr "0" /\ exists c, In c cs /\ p = (c ++ "/export")%string) /\
    g_period_ns m' = g_period_ns m /\ g_duty_frac m' = g_duty_frac m.

Lemma export_only_refl cs m : export_only cs m m.
Proof.
  exists []. split; [rewrite app_nil_r; reflexivity|]. split; [intros ? ? ? []|auto].
Qed.

Lemma export_only_trans cs m1 m2 m3 :
  export_only cs m1 m2 -> export_only cs m2 m3 -> export_only cs m1 m3.
Proof.
  intros [p1 [T1 [W1 [P1 F1]]]] [p2 [T2 [W2 [P2 F2]]]].
  exists (p1 ++ p2). split; [rewrite T2, T1, app_assoc; reflexivity|].
  split; [|split; congruence].
  intros p v ok Hin. rewrite writes_app in Hin. apply in_app_or in Hin as [H|H]; eauto.
Qed.

Lemma export_only_cons c cs m m' :
  export_only cs m m' -> export_only (c :: cs) m m'.
Proof.
  intros [pre [T [W R]]]. exists pre. split; [exact T|]. split; [|exact R].
  intros p v ok Hin. destruct (W p v ok Hin) as [Hv [c' [Hc' Hp]]].
  split; [exact Hv|]. exists c'. split; [right; exact Hc'|exact Hp].
Qed.

Lemma wait_pwm0_spec E n p m u m' :
  wait_pwm0 E n p m = (u, m') ->
  exists k, (k <= n)%nat /\ trace m' = trace m ++ repeat (IOSleep 10) k /\
    clock m' = clock m + 10 * Z.of_nat k /\ nwrites m' = nwrites m /\
    g_pwm_dir m' = g_pwm_dir m /\ g_period_ns m' = g_period_ns m /\
    g_duty_frac m' = g_duty_frac m.
Proof.
  revert m. induction n as [|n IH]; intros m H.
  - simpl in H. injection H as _ <-. exists O. rewrite app_nil_r.
    repeat split; auto; lia.
  - cbn in H. destruct (env_exists E p (clock m)).
    + injection H as _ <-. exists O. rewrite app_nil_r. repeat split; auto; lia.
    + apply IH in H as [k [Hk [Ht [Hc [Hn [Hd [Hp Hf]]]]]]]. cbn [clock trace nwrites g_pwm_dir g_period_ns g_duty_frac] in Ht, Hc, Hn, Hd, Hp, Hf.
      exists (S k). split; [lia|]. split.
      * rewrite Ht, <- app_assoc. reflexivity.
      * rewrite Nat2Z.inj_succ. repeat split; auto; lia.
Qed.

Lemma wait_pwm0_export cs E n p m u m' :
  wait_pwm0 E n p m = (u, m') -> export_only cs m m'.
Proof.
  intro H. apply wait_pwm0_spec in H as [k [_ [Ht [_ [_ [_ [Hpe Hf]]]]]]].
  exists (repeat (IOSleep 10) k). split; [exact Ht|]. split; [|auto].
  intros p0 v ok Hin. exfalso. clear Ht. induction k; simpl in Hin; auto.
Qed.

Lemma path_join2_some a b d : path_join2 a b = Some d -> d = (a ++ b)%string.
Proof. unfold path_join2. destruct (_ <? _)%nat; congruence. Qed.

Lemma probe_chips_spec E cs m r m' :
  probe_chips E cs m = (r, m') ->
  export_only cs m m' /\ (r <> 0 -> g_pwm_dir m' = g_pwm_dir m) /\
  ((forall c t, In c cs -> env_exists E (c ++ "/pwm0") t = false) -> r = -1).
Proof.
  revert m. induction cs as [|c cs IH]; intros m H.
  - simpl in H. injection H as <- <-. split; [apply export_only_refl|]. auto.
  - assert (Hcont : forall m0, export_only (c :: cs) m m0 ->
              g_pwm_dir m0 = g_pwm_dir m -> probe_chips E cs m0 = (r, m') ->
              export_only (c :: cs) m m' /\ (r <> 0 -> g_pwm_dir m' = g_pwm_dir m) /\
              ((forall c0 t, In c0 (c :: cs) -> env_exists E (c0 ++ "/pwm0") t = false) ->
               r = -1)).
    { intros m0 Ex Hd0 H0. apply IH in H0 as [Ex' [Hd' Hf']].
      split; [eapply export_only_trans; [exact Ex|apply export_only_cons, Ex']|].
      split; [intro Hr; rewrite Hd' by exact Hr; exact Hd0|].
      intro Hn. apply Hf'. intros c0 t Hc0. apply Hn. right. exact Hc0. }
    cbn [probe_chips] in H.
    destruct (path_join2 c "") as [chip|] eqn:J1;
      [|exact (Hcont m (export_only_refl _ _) eq_refl H)].
    destruct (path_join2 chip "/export") as [exportf|] eqn:J2;
      [|exact (Hcont m (export_only_refl _ _) eq_refl H)].
    destruct (path_join2 chip "/pwm0") as [pwm0|] eqn:J3;
      [|exact (Hcont m (export_only_refl _ _) eq_refl H)].
    apply path_join2_some in J1, J2, J3.
    rewrite string_app_nil_r in J1. subst chip exportf pwm0.
    unfold bind, path_exists, ret, write_str, write_val, set_dir in H.
    cbv beta iota zeta in H.
    assert (Htail : forall m0, export_only (c :: cs) m m0 ->
              g_pwm_dir m0 = g_pwm_dir m ->
              (if negb (env_exists E (c ++ "/pwm0") (clock m0))
               then probe_chips E cs
               else
                match path_join2 (c ++ "/pwm0") "/enable" with
                | Some en =>
                    match path_join2 (c ++ "/pwm0") "/period" with
                    | Some pe =>
                        match path_join2 (c ++ "/pwm0") "/duty_cycle" with
                        | Some du =>
                            fun m : machine =>
                            (if env_exists E en (clock m) && env_exists E pe (clock m) &&
                                env_exists E du (clock m)
                             then
                              match path_join2 (c ++ "/pwm0") "" with
                              | Some dir =>
                                  fun m0 : machine =>
                                  (0, {| trace := trace m0; nwrites := nwrites m0;
                                         clock := clock m0; g_pwm_dir := dir;
                                         g_period_ns := g_period_ns m0;
                                         g_duty_frac := g_duty_frac m0 |})
                              | None => fun m0 : machine => (-1, m0)
                              end
                             else probe_chips E cs) m
                        | None => probe_chips E cs
                        end
                    | None => probe_chips E cs
                    end
                | None => probe_chips E cs
                end) m0 = (r, m') ->
              export_only (c :: cs) m m' /\ (r <> 0 -> g_pwm_dir m' = g_pwm_dir m) /\
              ((forall c0 t, In c0 (c :: cs) -> env_exists E (c0 ++ "/pwm0") t = false) ->
               r = -1)).
    { clear H. intros m0 Ex0 Hd0 H0.
      assert (Hno : (forall c0 t, In c0 (c :: cs) ->
                       env_exists E (c0 ++ "/pwm0") t = false) ->
                    env_exists E (c ++ "/pwm0") (clock m0) = false)
        by (intros Hn; apply Hn; left; reflexivity).
      destruct (env_exists E (c ++ "/pwm0") (clock m0)) eqn:X2;
        cbv beta iota delta [negb] in H0; [|exact (Hcont m0 Ex0 Hd0 H0)].
      assert (Hf : (forall c0 t, In c0 (c :: cs) ->
                      env_exists E (c0 ++ "/pwm0") t = false) -> r = -1)
        by (intro Hn; specialize (Hno Hn); discriminate).
      destruct (path_join2 (c ++ "/pwm0") "/enable") as [en|];
        [|exact (Hcont m0 Ex0 Hd0 H0)].
      destruct (path_join2 (c ++ "/pwm0") "/period") as [pe|];
        [|exact (Hcont m0 Ex0 Hd0 H0)].
      destruct (path_join2 (c ++ "/pwm0") "/duty_cycle") as [du|];
        [|exact (Hcont m0 Ex0 Hd0 H0)].
      cbv beta iota in H0.
      destruct (env_exists E en (clock m0) && env_exists E pe (clock m0) &&
                env_exists E du (clock m0)); [|exact (Hcont m0 Ex0 Hd0 H0)].
      destruct (path_join2 (c ++ "/pwm0") "").
      - injection H0 as <- <-. split; [|split; [intro; lia|exact Hf]].
        destruct Ex0 as [pre [T [W R]]]. exists pre. split; [exact T|].
        split; [exact W|exact R].
      - injection H0 as <- <-. split; [exact Ex0|]. split; [intros _; exact Hd0|].
          intros _; reflexivity. }
    revert H. destruct (env_exists E (c ++ "/pwm0") (clock m)) eqn:X1; intro H.
    + rewrite X1 in H. refine (Htail m (export_only_refl _ _) eq_refl _).
      rewrite X1. exact H.
    + destruct (wait_pwm0 E 50 (c ++ "/pwm0") _) as [u m2] eqn:W.
      pose proof W as W'. apply wait_pwm0_spec in W' as [k [_ [_ [_ [_ [Hd2 _]]]]]].
      apply (wait_pwm0_export (c :: cs)) in W.
      refine (Htail m2 _ Hd2 H).
      refine (export_only_trans _ _ _ _ _ W).
      exists [IOWrite (c ++ "/export") (VStr "0") (env_write_ok E (nwrites m))].
      split; [reflexivity|]. split; [|split; reflexivity].
      intros p v ok [Hin|[]]. injection Hin as <- <- _.
      split; [reflexivity|]. exists c. split; [left; reflexivity|reflexivity].
Qed.

Lemma probe_spec E m r m1 :
  probe_find_pwm E m = (r, m1) ->
  export_only (glob_list E) m m1 /\ (r <> 0 -> g_pwm_dir m1 = g_pwm_dir m) /\
  (g_pwm_dir m = ""%string ->
   (forall c t, In c (glob_list E) -> env_exists E (c ++ "/pwm0") t = false) ->
   r = -1).
Proof.
  unfold probe_find_pwm, bind, get, glob_list. cbv beta iota.
  destruct (String.eqb (g_pwm_dir m) "") eqn:Hd; cbv beta iota delta [negb].
  - apply String.eqb_eq in Hd. destruct (env_glob E) as [cs|].
    + intro H. apply probe_chips_spec in H as [Ex [Hr Hf]]. auto.
    + unfold ret. intro H. injection H as <- <-.
      split; [apply export_only_refl|]. auto.
  - unfold ret. intro H. injection H as <- <-.
    split; [apply export_only_refl|]. split; [auto|].
    intro H. rewrite H in Hd. discriminate.
Qed.

Lemma PWM0_init_spec E hz duty m r m' :
  PWM0_init E hz duty m = (r, m') ->
  (exists m1 nw, probe_find_pwm E m = (0, m1) /\
     export_only (glob_list E) m m1 /\ trace m' = trace m1 ++ nw /\
     let per := period_of_hz (init_hz hz) in
     let dty := bounded_dc_from_ratio (init_duty duty) per in
     bringup (g_pwm_dir m1 ++ "/enable") (g_pwm_dir m1 ++ "/period")
             (g_pwm_dir m1 ++ "/duty_cycle") per dty 3 (writes nw) r /\
     (if r =? 0 then g_period_ns m' = per /\
                     g_duty_frac m' = (inject_Z dty / inject_Z per)%Q
      else g_period_ns m' = g_period_ns m /\ g_duty_frac m' = g_duty_frac m)) \/
  (r = -1 /\ export_only (glob_list E) m m').
Proof.
  unfold PWM0_init, bind at 1.
  destruct (probe_find_pwm E m) as [r0 m1] eqn:HP.
  pose proof (probe_spec E m r0 m1 HP) as [Ex [Hd _]].
  destruct (r0 =? 0) eqn:Hr0; cbv beta iota delta [negb].
  - apply Z.eqb_eq in Hr0. subst r0. unfold bind, get. cbv beta iota.
    destruct (path_join2 (g_pwm_dir m1) "/enable") as [en|] eqn:J1;
    destruct (path_join2 (g_pwm_dir m1) "/period") as [pe|] eqn:J2;
    destruct (path_join2 (g_pwm_dir m1) "/duty_cycle") as [du|] eqn:J3;
    try (unfold ret; intro H; injection H as <- <-; right; split; [reflexivity|exact Ex]).
    apply path_join2_some in J1, J2, J3. subst en pe du.
    intro H. apply init_attempts_spec in H as [nw [Ht [Hb [_ Hc]]]].
    left. exists m1, nw. split; [reflexivity|]. split; [exact Ex|].
    split; [exact Ht|]. split; [exact Hb|].
    destruct Ex as [pre [_ [_ [Hp Hf]]]].
    destruct (r =? 0); [exact Hc|]. rewrite <- Hp, <- Hf. exact Hc.
  - unfold ret. intro H. injection H as <- <-. right. split; [reflexivity|exact Ex].
Qed.

(** [C6] [PWM0_init] (1) after a successful probe runs the 5-step
    bring-up (disable, duty 1 ns, period, duty, enable), retrying the whole
    sequence when step 3, 4 or 5 fails, at most 3 attempts in all, and
    returns an error only when all 3 attempts failed; the cached period and
    ratio change only on success; when the probe or a path fails it returns
    an error having written only "0" to [export] files;  (2) the wait for an
    exported [pwm0] sleeps 10 ms at a time, at most 50 times (500 ms);
    (3) on a first call, when no chip's [pwm0] ever appears, it returns an
    error and writes nothing but "0" to [export] files, so no channel is
    enabled. *)
Theorem init_bringup_retries :
  (forall E hz duty m r m',
     PWM0_init E hz duty m = (r, m') ->
     (exists m1 nw, probe_find_pwm E m = (0, m1) /\
        export_only (glob_list E) m m1 /\ trace m' = trace m1 ++ nw /\
        let per := period_of_hz (init_hz hz) in
        let dty := bounded_dc_from_ratio (init_duty duty) per in
        bringup (g_pwm_dir m1 ++ "/enable") (g_pwm_dir m1 ++ "/period")
                (g_pwm_dir m1 ++ "/duty_cycle") per dty 3 (writes nw) r /\
        (if r =? 0 then g_period_ns m' = per /\
                        g_duty_frac m' = (inject_Z dty / inject_Z per)%Q
         else g_period_ns m' = g_period_ns m /\ g_duty_frac m' = g_duty_frac m)) \/
     (r = -1 /\ export_only (glob_list E) m m')) /\
  (forall E p m u m',
     wait_pwm0 E 50 p m = (u, m') ->
     exists k, (k <= 50)%nat /\ trace m' = trace m ++ repeat (IOSleep 10) k /\
       clock m' = clock m + 10 * Z.of_nat k) /\
  (forall E hz duty m r m',
     g_pwm_dir m = ""%string ->
     (forall c t, In c (glob_list E) -> env_exists E (c ++ "/pwm0") t = false) ->
     PWM0_init E hz duty m = (r, m') ->
     r = -1 /\ export_only (glob_list E) m m').
Proof.
  split; [exact PWM0_init_spec|]. split.
  - intros E p m u m' H. apply wait_pwm0_spec in H as [k [Hk [Ht [Hc _]]]].
    exists k. auto.
  - intros E hz duty m r m' Hd Hn H.
    apply PWM0_init_spec in H as [[m1 [nw [HP _]]] | Hr]; [|exact Hr].
    apply probe_spec in HP as [_ [_ Hf]]. specialize (Hf Hd Hn). discriminate.
Qed.

Lemma init_bringup_retries_witness :
  let res := PWM0_init env_no_pwm0 (50 # 1) (1 # 2) m_fresh in
  fst res = -1 /\ export_only (glob_list env_no_pwm0) m_fresh (snd res).
Proof.
  apply (proj2 (proj2 init_bringup_retries) env_no_pwm0 (50 # 1) (1 # 2) m_fresh).
  - reflexivity.
  - intros c t _. reflexivity.
  - destruct (PWM0_init env_no_pwm0 (50 # 1) (1 # 2) m_fresh). reflexivity.
Defined.






Lemma path_join2_ok a b :
  (String.length a + String.length b < 4096)%nat -> path_join2 a b = Some (a ++ b)%string.
Proof.
  intro H. unfold path_join2, PATH_MAX.
  destruct (Nat.ltb_spec (String.length a + String.length b) 4096); [reflexivity|lia].
Qed.








Lemma freq_fallback_ok E n en pe du per dty m m' :
  freq_fallback E n en pe du per dty m = (0, m') ->
  g_period_ns m' = per /\ g_duty_frac m' = (inject_Z dty / inject_Z per)%Q.
Proof.
  revert m. induction n as [|n IH]; intros m H; [discriminate|].
  cbn in H.
  repeat match type of H with
  | context [env_write_ok E ?k] => destruct (env_write_ok E k); cbn in H
  end; try (apply IH in H; exact H).
  all: unfold ret in H; injection H as <-; split; reflexivity.
Qed.

Lemma set_freq_ok E hz m m' :
  PWM0_set_freq E hz m = (0, m') ->
  let per := period_of_hz hz in
  g_period_ns m' = per /\
  g_duty_frac m' = (inject_Z (bounded_dc_from_ratio (g_duty_frac m) per) /
                    inject_Z per)%Q.
Proof.
  intros H per. unfold PWM0_set_freq, bind, get, ret in H. cbv beta iota in H.
  destruct (String.eqb (g_pwm_dir m) "" || Qle_bool hz 0); [discriminate|].
  destruct (path_join2 (g_pwm_dir m) "/enable") as [en|]; [|discriminate].
  destruct (path_join2 (g_pwm_dir m) "/period") as [pe|]; [|discriminate].
  destruct (path_join2 (g_pwm_dir m) "/duty_cycle") as [du|]; [|discriminate].
  fold per in H.
  set (dty := bounded_dc_from_ratio (g_duty_frac m) per) in *.
  unfold read_ll, write_ll, write_val, msleep, set_period, set_frac in H.
  cbv beta iota in H.
  destruct (env_read_ll E en (clock m) =? 0); cbv beta iota in H;
  repeat match type of H with
  | context [env_write_ok E ?k] =>
      destruct (env_write_ok E k);
      change (0 =? 0) with true in H; change (-1 =? 0) with false in H;
      cbv beta iota delta [negb andb] in H;
      cbn [trace nwrites clock g_pwm_dir g_period_ns g_duty_frac] in H
  end.
  all: first [ apply freq_fallback_ok in H; exact H
             | injection H as <-; split; reflexivity
             | discriminate ].
Qed.

Lemma set_duty_frac E f m :
  g_pwm_dir m <> ""%string -> (String.length (g_pwm_dir m) < 4000)%nat ->
  (0 < g_period_ns m \/
   0 < env_read_ll E (g_pwm_dir m ++ "/period") (clock m)) ->
  g_duty_frac (snd (PWM0_set_duty E f m)) = f.
Proof.
  intros Hd Hl Hp.
  unfold PWM0_set_duty, bind, get, ret, read_ll, set_period, set_frac,
    write_ll, write_val, msleep.
  cbv beta iota.
  apply String.eqb_neq in Hd. rewrite Hd. cbv beta iota.
  destruct (Z.leb_spec (g_period_ns m) 0) as [H0|H0]; cbv beta iota.
  - rewrite (path_join2_ok _ "/period") by (simpl; lia). cbv beta iota.
    destruct (Z.leb_spec (env_read_ll E (g_pwm_dir m ++ "/period") (clock m)) 0);
      [lia|].
    cbv beta iota delta [negb].
    cbn [trace nwrites clock g_pwm_dir g_period_ns g_duty_frac].
    rewrite (path_join2_ok _ "/duty_cycle") by (simpl; lia).
    rewrite (path_join2_ok _ "/enable") by (simpl; lia).
    cbv beta iota.
    repeat match goal with
    | |- context [if ?b then _ else _] => destruct b; cbv beta iota
    end; reflexivity.
  - cbv beta iota delta [negb].
    cbn [trace nwrites clock g_pwm_dir g_period_ns g_duty_frac].
    rewrite (path_join2_ok _ "/duty_cycle") by (simpl; lia).
    rewrite (path_join2_ok _ "/enable") by (simpl; lia).
    cbv beta iota.
    repeat match goal with
    | |- context [if ?b then _ else _] => destruct b; cbv beta iota
    end; reflexivity.
Qed.

Lemma set_duty_early_fail E f m :
  (String.length (g_pwm_dir m) < 4000)%nat ->
  g_pwm_dir m = ""%string \/
  (g_period_ns m <= 0 /\ env_read_ll E (g_pwm_dir m ++ "/period") (clock m) <= 0) ->
  PWM0_set_duty E f m = (-1, m).
Proof.
  intros Hl [Hd | [H0 H1]];
    unfold PWM0_set_duty, bind, get, ret, read_ll; cbv beta iota.
  - rewrite Hd. reflexivity.
  - destruct (String.eqb (g_pwm_dir m) ""); [reflexivity|].
    destruct (Z.leb_spec (g_period_ns m) 0) as [_|]; [|lia].
    rewrite (path_join2_ok _ "/period") by (simpl; lia). cbv beta iota.
    destruct (Z.leb_spec (env_read_ll E (g_pwm_dir m ++ "/period") (clock m)) 0);
      [reflexivity|lia].
Qed.

(** [C10] (as corrected) Once [PWM0_set_duty(f)] gets past its guards
    (the channel is probed and a positive period is known or read from
    [period]), it stores the raw, unclamped [f] as the remembered ratio
    before any write, whatever the outcome of the call (success, rejected
    writes, any [f]); a following successful [PWM0_set_freq(hz)] commits
    the ratio [bounded_dc_from_ratio(f, per) / per] for the new period
    [per], so [f] is clamped only when it is used.  A call that fails at
    the guards (no probed channel, or no positive period) returns -1 and
    changes nothing, so the remembered ratio is then not [f]. *)
Theorem set_duty_stores_raw_ratio E f m :
  (String.length (g_pwm_dir m) < 4000)%nat ->
  (g_pwm_dir m <> ""%string /\
   (0 < g_period_ns m \/
    0 < env_read_ll E (g_pwm_dir m ++ "/period") (clock m)) ->
   let m1 := snd (PWM0_set_duty E f m) in
   g_duty_frac m1 = f /\
   forall hz m2, PWM0_set_freq E hz m1 = (0, m2) ->
     g_duty_frac m2 =
       (inject_Z (bounded_dc_from_ratio f (period_of_hz hz)) /
        inject_Z (period_of_hz hz))%Q) /\
  (g_pwm_dir m = ""%string \/
   (g_period_ns m <= 0 /\ env_read_ll E (g_pwm_dir m ++ "/period") (clock m) <= 0) ->
   PWM0_set_duty E f m = (-1, m)).
Proof.
  intros Hl. split.
  - intros [Hd Hp] m1.
    assert (Hf : g_duty_frac m1 = f) by (apply set_duty_frac; assumption).
    split; [exact Hf|].
    intros hz m2 H. apply set_freq_ok in H. rewrite Hf in H. apply H.
  - apply set_duty_early_fail. exact Hl.
Qed.

(** A call with [f = 1.5], outside the band, on the channel after
    [PWM0_init(50 Hz, 50%)]. *)
Lemma set_duty_stores_raw_ratio_witness :
  let m0 := snd (PWM0_init env_all_ok (50 # 1) (1 # 2) m_fresh) in
  g_duty_frac (snd (PWM0_set_duty env_all_ok (3 # 2) m0)) = (3 # 2)%Q.
Proof.
  intros m0.
  refine (proj1 (proj1 (set_duty_stores_raw_ratio env_all_ok (3 # 2) m0 _) _)).
  - apply Nat.ltb_lt. vm_compute. reflexivity.
  - split.
    + vm_compute. discriminate.
    + left. apply Z.ltb_lt. vm_compute. reflexivity.
Defined.

(** [C10] counterexample: before the channel is probed,
    [PWM0_set_duty(0.3)] fails and the remembered ratio stays 0.5. *)
Lemma set_duty_unprobed_keeps_ratio :
  PWM0_set_duty env_all_ok (3 # 10) m_fresh = (-1, m_fresh) /\
  g_duty_frac m_fresh = (1 # 2)%Q.
Proof. split; reflexivity. Qed.

End PWM0Facts.

(** ** Servo facts *)
Module ServoFacts.
Import Servo.

Definition keeps_sv {A} (c : SM A) : Prop := forall st, sv (snd (c st)) = sv st.

Lemma keeps_bind {A B} (c : SM A) (k : A -> SM B) :
  keeps_sv c -> (forall a, keeps_sv (k a)) -> keeps_sv (sbind c k).
Proof.
  intros Hc Hk st. unfold sbind. specialize (Hc st).
  destruct (c st) as [a st']. simpl in Hc. rewrite Hk. exact Hc.
Qed.

Lemma keeps_ret {A} (a : A) : keeps_sv (sret a).
Proof. intro. reflexivity. Qed.

Lemma keeps_write_str E p v : keeps_sv (write_str E p v).
Proof. intro. reflexivity. Qed.

Lemma keeps_write_int E p v : keeps_sv (write_int E p v).
Proof. intro. reflexivity. Qed.

Lemma keeps_exists E p : keeps_sv (exists_ E p).
Proof. intro. reflexivity. Qed.

Lemma keeps_nanosleep ms : keeps_sv (nanosleep ms).
Proof. intro. reflexivity. Qed.

Create HintDb keeps.
#[local] Hint Resolve keeps_ret keeps_write_str keeps_write_int keeps_exists
  keeps_nanosleep : keeps.

Ltac keeps_step :=
  first [ apply keeps_bind; [|intro]
        | match goal with |- keeps_sv (if ?b then _ else _) => destruct b end
        | solve [auto with keeps] ].

Lemma keeps_export_wait E n p : keeps_sv (export_wait E n p).
Proof. induction n as [|n IH]; simpl; repeat keeps_step; exact IH. Qed.

Lemma keeps_export_pwm E c ch : keeps_sv (export_pwm E c ch).
Proof.
  unfold export_pwm. repeat first [apply keeps_export_wait | keeps_step].
Qed.

Lemma clamp_id v lo hi : lo <= v <= hi -> clamp v lo hi = v.
Proof.
  intros H. unfold clamp.
  destruct (Z.ltb_spec v lo); [lia|]. destruct (Z.ltb_spec hi v); [lia|]. reflexivity.
Qed.

(** [C8] (as corrected) For an enabled servo and every pct in [0, 100],
    with [span = |max_ns - neutral_ns|] (the distance up to [max_ns], used
    for both directions): [servo_left(pct)] writes
    [clamp(neutral_ns - span*pct/100, min_ns, max_ns)] and
    [servo_right(pct)] writes [clamp(neutral_ns + span*pct/100, min_ns, max_ns)]
    (C division, truncating) to [duty_cycle], as [servo_set_pulse_ns] of
    these values, and [servo_stop] is [servo_set_pulse_ns(neutral_ns)].
    The model computes in [Z], which is C's [int] arithmetic for every
    servo and pct on which no operation of [pct_to_ns] overflows; the
    statement needs no bound beyond that. *)
Theorem servo_motion_pulse E st pct :
  let s := sv st in
  enabled s = true -> 0 <= pct <= 100 ->
  let span := Z.abs (max_ns s - neutral_ns s) in
  let du := (base s ++ "/duty_cycle")%string in
  servo_left E pct st =
    write_int E du (clamp (neutral_ns s - Z.quot (span * pct) 100) (min_ns s) (max_ns s)) st /\
  servo_right E pct st =
    write_int E du (clamp (neutral_ns s + Z.quot (span * pct) 100) (min_ns s) (max_ns s)) st /\
  servo_left E pct st = servo_set_pulse_ns E (neutral_ns s - Z.quot (span * pct) 100) st /\
  servo_right E pct st = servo_set_pulse_ns E (neutral_ns s + Z.quot (span * pct) 100) st /\
  servo_stop E st = servo_set_pulse_ns E (neutral_ns s) st.
Proof.
  intros s Hen Hp span du.
  assert (Hs : (if max_ns s - neutral_ns s <? 0
                then - (max_ns s - neutral_ns s) else max_ns s - neutral_ns s) = span).
  { subst span. destruct (Z.ltb_spec (max_ns s - neutral_ns s) 0); lia. }
  assert (Hc : clamp pct 0 100 = pct) by (apply clamp_id; lia).
  unfold servo_left, servo_right, servo_stop, servo_set_pulse_ns, sbind, sget.
  cbv beta iota. fold s. rewrite Hen. cbv beta iota delta [negb].
  unfold pct_to_ns. rewrite Hc, Hs.
  destruct (Z.leb_spec 0 (-1)) as [H|_]; [lia|].
  destruct (Z.leb_spec 0 1) as [_|H]; [|lia].
  repeat split.
Qed.

(** [left(100)] on bounds (1 600 000, 1 200 000, 2 000 000) writes
    "1200000". *)
Lemma servo_motion_pulse_witness :
  servo_left senv_ok 100 (st_enabled 1600000 1200000 2000000) =
  write_int senv_ok "/sys/class/pwm/pwmchip0/pwm0/duty_cycle" 1200000
    (st_enabled 1600000 1200000 2000000).
Proof.
  refine (eq_trans (proj1 (servo_motion_pulse senv_ok
            (st_enabled 1600000 1200000 2000000) 100 _ _)) _).
  - reflexivity.
  - split; apply Z.leb_le; reflexivity.
  - reflexivity.
Defined.

(** [C8] counterexample: with bounds (neutral 1 500 000, min 1 000 000,
    max 1 800 000), [servo_left(100)] writes 1 200 000 (neutral minus the
    span up to max), not 1 000 000 (neutral minus the span down to min). *)
Lemma servo_left_uses_upper_span :
  strace (snd (servo_left senv_ok 100 (st_enabled 1500000 1000000 1800000))) =
    [SWrite "/sys/class/pwm/pwmchip0/pwm0/duty_cycle" "1200000" 0] /\
  1500000 - (1500000 - 1000000) = 1000000.
Proof. split; reflexivity. Qed.

(** [C9] Every motion operation on a servo whose [enabled] flag is false
    returns [-EIO] and leaves the state unchanged (no write, no sleep);
    [servo_close] always leaves the flag false; a [servo_init] that fails
    leaves it false; and a zero-filled ([static]) [Servo] has it false. *)
Theorem servo_disabled_no_write E :
  (forall st d pct,
     enabled (sv st) = false ->
     servo_set_pulse_ns E d st = (- EIO, st) /\
     servo_left E pct st = (- EIO, st) /\
     servo_right E pct st = (- EIO, st) /\
     servo_stop E st = (- EIO, st)) /\
  (forall st, enabled (sv (snd (servo_close E st))) = false) /\
  (forall st c ch per neutral mn mx,
     fst (servo_init E c ch per neutral mn mx st) <> 0 ->
     enabled (sv (snd (servo_init E c ch per neutral mn mx st))) = false) /\
  enabled servo_zero = false.
Proof.
  split; [|split; [|split]].
  - intros st d pct H.
    unfold servo_left, servo_right, servo_stop, sbind, sget. cbv beta iota.
    unfold servo_set_pulse_ns, sbind, sget. cbv beta iota. rewrite H. cbv beta iota delta [negb]. repeat split.
  - intros st. reflexivity.
  - intros st c ch per neutral mn mx.
    unfold servo_init, sbind, sput, sget, write_int, write_str, exists_, sret.
    cbv beta iota.
    set (c' := if c <? 0 then _ else c).
    set (st0 := mkSS _ _ _ _).
    pose proof (keeps_export_pwm E c' ch st0) as Hk.
    destruct (export_pwm E c' ch st0) as [rc st1]. simpl in Hk.
    cbv beta iota.
    destruct (rc =? 0); cbv beta iota delta [negb];
      [|intros _; simpl; rewrite Hk; reflexivity].
    cbn [sv strace snw sclock].
    destruct (se_exists E _ (sclock st1)); cbv beta iota;
    cbn [sv strace snw sclock];
    repeat match goal with
    | |- context [se_write_rc E ?k =? 0] => destruct (se_write_rc E k =? 0);
        cbv beta iota delta [negb]; cbn [sv strace snw sclock fst snd]
    end;
    first [ intro H; exfalso; apply H; reflexivity
          | intros _; rewrite Hk; reflexivity ].
  - reflexivity.
Qed.

(** After [servo_close], [servo_left(50)] returns [-EIO] and writes
    nothing. *)
Lemma servo_disabled_no_write_witness :
  let st := snd (servo_close senv_ok (st_enabled 1600000 1200000 2000000)) in
  servo_left senv_ok 50 st = (- EIO, st).
Proof.
  intros st.
  exact (proj1 (proj2 (proj1 (servo_disabled_no_write senv_ok) st 0 50
                        (proj1 (proj2 (servo_disabled_no_write senv_ok)) _)))).
Defined.

End ServoFacts.

(** ** Further properties of [PWM0.c] *)
Module PWM0Extra.
Import PWM0.
Import PWM0Facts.

Lemma freq_fallback_cost E n en pe du per dty m r m' :
  freq_fallback E n en pe du per dty m = (r, m') ->
  (r = 0 \/ (r = -1 /\ g_period_ns m' = g_period_ns m /\
             g_duty_frac m' = g_duty_frac m)) /\
  g_pwm_dir m' = g_pwm_dir m /\
  (nwrites m' <= nwrites m + 5 * n)%nat /\
  clock m <= clock m' <= clock m + 3 * Z.of_nat n.
Proof.
  revert m. induction n as [|n IH]; intros m H.
  - simpl in H. injection H as <- <-.
    repeat split; first [lia | right; repeat split; reflexivity].
  - cbn in H.
    repeat match type of H with
    | context [env_write_ok E ?k] => destruct (env_write_ok E k); cbn in H
    end;
    first [ apply IH in H;
            cbn [clock trace nwrites g_pwm_dir g_period_ns g_duty_frac] in H;
            rewrite Nat2Z.inj_succ; repeat split; first [lia | tauto]
          | unfold ret in H; injection H as <- <-;
            cbn [clock trace nwrites g_pwm_dir g_period_ns g_duty_frac];
            rewrite Nat2Z.inj_succ; repeat split; first [lia | left; reflexivity] ].
Qed.

Lemma set_freq_cases E hz m r m' :
  PWM0_set_freq E hz m = (r, m') ->
  (r = 0 \/ (r = -1 /\ g_period_ns m' = g_period_ns m /\
             g_duty_frac m' = g_duty_frac m)) /\
  g_pwm_dir m' = g_pwm_dir m /\
  (nwrites m' <= nwrites m + 16)%nat /\
  clock m <= clock m' <= clock m + 8.
Proof.
  intros H. unfold PWM0_set_freq, bind, get, ret in H. cbv beta iota in H.
  destruct (String.eqb (g_pwm_dir m) "" || Qle_bool hz 0);
    [injection H as <- <-; repeat split; first [lia | right; repeat split; reflexivity]|].
  destruct (path_join2 (g_pwm_dir m) "/enable") as [en|];
    [|injection H as <- <-; repeat split; first [lia | right; repeat split; reflexivity]].
  destruct (path_join2 (g_pwm_dir m) "/period") as [pe|];
    [|injection H as <- <-; repeat split; first [lia | right; repeat split; reflexivity]].
  destruct (path_join2 (g_pwm_dir m) "/duty_cycle") as [du|];
    [|injection H as <- <-; repeat split; first [lia | right; repeat split; reflexivity]].
  unfold read_ll, write_ll, write_val, msleep, set_period, set_frac in H.
  cbv beta iota in H.
  destruct (env_read_ll E en (clock m) =? 0); cbv beta iota in H;
  repeat match type of H with
  | context [env_write_ok E ?k] =>
      destruct (env_write_ok E k);
      change (0 =? 0) with true in H; change (-1 =? 0) with false in H;
      cbv beta iota delta [negb andb] in H;
      cbn [trace nwrites clock g_pwm_dir g_period_ns g_duty_frac] in H
  end;
  first [ apply freq_fallback_cost in H;
          cbn [clock trace nwrites g_pwm_dir g_period_ns g_duty_frac] in H;
          simpl Z.of_nat in H; repeat split; first [lia | tauto]
        | injection H as <- <-;
          cbn [clock trace nwrites g_pwm_dir g_period_ns g_duty_frac];
          repeat split; first [lia | left; reflexivity] ].
Qed.

(** [PWM0_set_freq] returns 0 or -1; when it fails, the cached period and
    duty ratio (and the probed directory) are those from before the call. *)
Theorem set_freq_failure_keeps_cache E hz m :
  let res := PWM0_set_freq E hz m in
  (fst res = 0 \/ fst res = -1) /\
  g_pwm_dir (snd res) = g_pwm_dir m /\
  (fst res <> 0 ->
   g_period_ns (snd res) = g_period_ns m /\ g_duty_frac (snd res) = g_duty_frac m).
Proof.
  intros res. subst res.
  destruct (PWM0_set_freq E hz m) as [r m'] eqn:H. simpl.
  apply set_freq_cases in H as [Hr [Hd _]].
  split; [lia|]. split; [exact Hd|]. intro Hn. destruct Hr as [->|[_ Hc]]; [lia|exact Hc].
Qed.

(** Whatever the writes and reads return, one [PWM0_set_freq] call issues
    at most 16 writes and sleeps at most 8 ms in all (the probed channel
    is never re-probed). *)
Theorem set_freq_bounded_work E hz m :
  let m' := snd (PWM0_set_freq E hz m) in
  (nwrites m' <= nwrites m + 16)%nat /\ clock m <= clock m' <= clock m + 8.
Proof.
  intros m'. subst m'. destruct (PWM0_set_freq E hz m) as [r m'] eqn:H. simpl.
  apply set_freq_cases in H. tauto.
Qed.

(** When the channel accepts every write, [PWM0_set_freq(hz)] on a probed
    channel takes fast path A: it writes [enable] 1 only if [enable] read
    0, then the new period and the new bounded duty, and returns 0. *)
Theorem set_freq_fast_path E hz m :
  g_pwm_dir m <> ""%string -> (String.length (g_pwm_dir m) < 4000)%nat ->
  Qle_bool hz 0 = false ->
  (forall k, env_write_ok E k = true) ->
  let dir := g_pwm_dir m in
  let per := period_of_hz hz in
  let dty := bounded_dc_from_ratio (g_duty_frac m) per in
  let en := (dir ++ "/enable")%string in
  fst (PWM0_set_freq E hz m) = 0 /\
  exists nw,
    trace (snd (PWM0_set_freq E hz m)) = trace m ++ nw /\
    writes nw = (if env_read_ll E en (clock m) =? 0 then [(en, VNum 1, true)] else [])
                ++ [((dir ++ "/period")%string, VNum per, true);
                    ((dir ++ "/duty_cycle")%string, VNum dty, true)].
Proof.
  intros Hd Hl Hz Hw dir per dty en.
  unfold PWM0_set_freq, bind, get, ret.
  apply String.eqb_neq in Hd. rewrite Hd, Hz. cbv beta iota delta [orb].
  rewrite (path_join2_ok _ "/enable") by (simpl; lia).
  rewrite (path_join2_ok _ "/period") by (simpl; lia).
  rewrite (path_join2_ok _ "/duty_cycle") by (simpl; lia).
  unfold read_ll, write_ll, write_val, msleep, set_period, set_frac.
  cbv beta iota. fold dir en per dty.
  destruct (env_read_ll E en (clock m) =? 0); cbv beta iota;
    do 12 (rewrite ?Hw; cbv beta iota delta [negb andb Z.eqb];
           cbn [trace nwrites clock g_pwm_dir g_period_ns g_duty_frac]);
    (split; [reflexivity|]; eexists; split;
      [repeat rewrite <- app_assoc; reflexivity | reflexivity]).
Qed.

Lemma set_freq_fast_path_witness :
  let m0 := snd (PWM0_init env_all_ok (50 # 1) (1 # 2) m_fresh) in
  fst (PWM0_set_freq env_all_ok (100 # 1) m0) = 0 /\
  exists nw,
    trace (snd (PWM0_set_freq env_all_ok (100 # 1) m0)) = trace m0 ++ nw /\
    writes nw = (if env_read_ll env_all_ok (g_pwm_dir m0 ++ "/enable") (clock m0) =? 0
                 then [((g_pwm_dir m0 ++ "/enable")%string, VNum 1, true)] else [])
                ++ [((g_pwm_dir m0 ++ "/period")%string, VNum (period_of_hz (100 # 1)), true);
                    ((g_pwm_dir m0 ++ "/duty_cycle")%string,
                     VNum (bounded_dc_from_ratio (g_duty_frac m0) (period_of_hz (100 # 1))), true)].
Proof.
  intros m0. apply (set_freq_fast_path env_all_ok (100 # 1) m0).
  - vm_compute. discriminate.
  - apply Nat.ltb_lt. vm_compute. reflexivity.
  - reflexivity.
  - intros k. reflexivity.
Defined.

(** [PWM0_cleanup] on a channel that was never probed does nothing; on a
    probed channel it writes "0" to [enable] and nothing else, and keeps the
    probed directory and the cached period and ratio, so a later
    [PWM0_init] does not probe or export again: its writes are exactly the
    retried 5-step bring-up on the same directory. *)
Theorem cleanup_then_init E m :
  (g_pwm_dir m = ""%string -> PWM0_cleanup E m = (tt, m)) /\
  (g_pwm_dir m <> ""%string -> (String.length (g_pwm_dir m) < 4000)%nat ->
   let dir := g_pwm_dir m in
   let m1 := snd (PWM0_cleanup E m) in
   trace m1 = trace m ++ [IOWrite (dir ++ "/enable") (VStr "0") (env_write_ok E (nwrites m))] /\
   g_pwm_dir m1 = dir /\ g_period_ns m1 = g_period_ns m /\ g_duty_frac m1 = g_duty_frac m /\
   forall hz duty r m2,
     PWM0_init E hz duty m1 = (r, m2) ->
     exists nw, trace m2 = trace m1 ++ nw /\
       let per := period_of_hz (init_hz hz) in
       bringup (dir ++ "/enable") (dir ++ "/period") (dir ++ "/duty_cycle")
               per (bounded_dc_from_ratio (init_duty duty) per) 3 (writes nw) r).
Proof.
  split.
  - intros Hd. unfold PWM0_cleanup, bind, get, ret. rewrite Hd. reflexivity.
  - intros Hd Hl dir m1.
    assert (Hm1 : m1 = mkM (trace m ++ [IOWrite (dir ++ "/enable") (VStr "0")
                                         (env_write_ok E (nwrites m))])
                           (S (nwrites m)) (clock m) dir (g_period_ns m) (g_duty_frac m)).
    { subst m1. unfold PWM0_cleanup, bind, get, ret.
      apply String.eqb_neq in Hd. rewrite Hd.
      rewrite (path_join2_ok _ "/enable") by (simpl; lia). reflexivity. }
    rewrite Hm1. cbn [trace nwrites clock g_pwm_dir g_period_ns g_duty_frac].
    split; [reflexivity|]. split; [reflexivity|]. split; [reflexivity|].
    split; [reflexivity|].
    intros hz duty r m2 H.
    unfold PWM0_init, probe_find_pwm, bind, get, ret in H.
    cbn [trace nwrites clock g_pwm_dir g_period_ns g_duty_frac] in H.
    apply String.eqb_neq in Hd. fold dir in Hd. rewrite Hd in H.
    cbv beta iota delta [negb Z.eqb] in H.
    cbn [trace nwrites clock g_pwm_dir g_period_ns g_duty_frac] in H.
    rewrite !path_join2_ok in H by (simpl; unfold dir; lia).
    cbv beta iota zeta in H.
    apply init_attempts_spec in H as [nw [Ht [Hb _]]].
    exists nw. split; [exact Ht|exact Hb].
Qed.

Lemma cleanup_then_init_witness :
  let m0 := snd (PWM0_init env_all_ok (50 # 1) (1 # 2) m_fresh) in
  trace (snd (PWM0_cleanup env_all_ok m0)) =
    trace m0 ++ [IOWrite (g_pwm_dir m0 ++ "/enable") (VStr "0")
                         (env_write_ok env_all_ok (nwrites m0))].
Proof.
  intros m0. apply (cleanup_then_init env_all_ok m0).
  - vm_compute. discriminate.
  - apply Nat.ltb_lt. vm_compute. reflexivity.
Defined.





(** On a probed channel, [PWM0_set_duty] caches the period it reads from
    [period] when none was cached and the value read is positive, whatever
    the writes then return; a positive cached period is never changed. *)
Theorem set_duty_period_cache E f m :
  g_pwm_dir m <> ""%string -> (String.length (g_pwm_dir m) < 4000)%nat ->
  let p := env_read_ll E (g_pwm_dir m ++ "/period") (clock m) in
  g_period_ns (snd (PWM0_set_duty E f m)) =
    if g_period_ns m <=? 0 then (if 0 <? p then p else g_period_ns m)
    else g_period_ns m.
Proof.
  intros Hd Hl p.
  unfold PWM0_set_duty, bind, get, ret, read_ll, set_period, set_frac,
    write_ll, write_val, msleep.
  cbv beta iota.
  apply String.eqb_neq in Hd. rewrite Hd. cbv beta iota.
  destruct (Z.leb_spec (g_period_ns m) 0) as [H0|H0]; cbv beta iota.
  - rewrite (path_join2_ok _ "/period") by (simpl; lia). cbv beta iota. fold p.
    destruct (Z.leb_spec p 0) as [Hp|Hp].
    + destruct (Z.ltb_spec 0 p); [lia|]. reflexivity.
    + destruct (Z.ltb_spec 0 p); [|lia].
      cbv beta iota delta [negb].
      cbn [trace nwrites clock g_pwm_dir g_period_ns g_duty_frac].
      rewrite (path_join2_ok _ "/duty_cycle") by (simpl; lia).
      rewrite (path_join2_ok _ "/enable") by (simpl; lia).
      cbv beta iota.
      repeat match goal with
      | |- context [if ?b then _ else _] => destruct b; cbv beta iota
      end; reflexivity.
  - cbv beta iota delta [negb].
    cbn [trace nwrites clock g_pwm_dir g_period_ns g_duty_frac].
    rewrite (path_join2_ok _ "/duty_cycle") by (simpl; lia).
    rewrite (path_join2_ok _ "/enable") by (simpl; lia).
    cbv beta iota.
    repeat match goal with
    | |- context [if ?b then _ else _] => destruct b; cbv beta iota
    end; reflexivity.
Qed.

Lemma set_duty_period_cache_witness :
  g_period_ns (snd (PWM0_set_duty env_all_ok (3 # 10)
                      (mkM [] O 0 "/sys/class/pwm/pwmchip0/pwm0" 0 (1 # 2)))) = 1.
Proof.
  rewrite (set_duty_period_cache env_all_ok (3 # 10)
             (mkM [] O 0 "/sys/class/pwm/pwmchip0/pwm0" 0 (1 # 2))).
  - reflexivity.
  - discriminate.
  - apply Nat.ltb_lt. reflexivity.
Defined.

End PWM0Extra.

(** ** Further properties of [servo.c] *)
Module ServoExtra.
Import Servo.
Import ServoFacts.

(** On an enabled servo with [min_ns <= max_ns], [servo_set_pulse_ns(d)]
    writes one value, [clamp(d, min_ns, max_ns)], to [duty_cycle] and
    returns what that write returned: the value written always lies in
    [min_ns, max_ns] and is [d] itself when [d] is in range. *)
Theorem set_pulse_in_bounds E st d :
  let s := sv st in
  enabled s = true -> min_ns s <= max_ns s ->
  let v := clamp d (min_ns s) (max_ns s) in
  let rc := se_write_rc E (snw st) in
  min_ns s <= v <= max_ns s /\
  (min_ns s <= d <= max_ns s -> v = d) /\
  servo_set_pulse_ns E d st =
    (rc, mkSS s (strace st ++ [SWrite (base s ++ "/duty_cycle") (dec v) rc])
              (S (snw st)) (sclock st)).
Proof.
  intros s Hen Hle v rc.
  split; [subst v; unfold clamp;
          destruct (Z.ltb_spec d (min_ns s)); [lia|];
          destruct (Z.ltb_spec (max_ns s) d); lia|].
  split; [intro; apply clamp_id; assumption|].
  unfold servo_set_pulse_ns, sbind, sget. cbv beta iota. fold s. rewrite Hen.
  reflexivity.
Qed.

Lemma set_pulse_in_bounds_witness :
  servo_set_pulse_ns senv_ok 2500000 (st_enabled 1600000 1200000 2000000) =
    (0, mkSS (sv (st_enabled 1600000 1200000 2000000))
             [SWrite "/sys/class/pwm/pwmchip0/pwm0/duty_cycle"
                     (dec (clamp 2500000 1200000 2000000)) 0] 1 0).
Proof.
  refine (proj2 (proj2 (set_pulse_in_bounds senv_ok (st_enabled 1600000 1200000 2000000)
                          2500000 _ _))).
  - reflexivity.
  - apply Z.leb_le. reflexivity.
Defined.

Lemma quot_nonneg_mono a b : 0 <= a <= b -> Z.quot a 100 <= Z.quot b 100.
Proof.
  intros H. rewrite !Z.quot_div_nonneg by lia. apply Z.div_le_mono; lia.
Qed.

(** The shape of [pct_to_ns], for bounds with no [int] overflow: the
    percentage saturates at 0 and 100; left and right offsets are mirror
    images around [neutral_ns]; the right pulse grows with pct from
    [neutral_ns] to at most [neutral_ns + |max_ns - neutral_ns|]; and at
    0% both [servo_left] and [servo_right] are [servo_stop]. *)
Theorem pct_to_ns_shape E st pct1 pct2 :
  let s := sv st in
  0 <= neutral_ns s <= 20000000 -> 0 <= max_ns s <= 20000000 ->
  let span := Z.abs (max_ns s - neutral_ns s) in
  (forall dir, pct_to_ns s pct1 dir = pct_to_ns s (clamp pct1 0 100) dir) /\
  pct_to_ns s pct1 1 - neutral_ns s = neutral_ns s - pct_to_ns s pct1 (-1) /\
  neutral_ns s <= pct_to_ns s pct1 1 <= neutral_ns s + span /\
  (pct1 <= pct2 -> pct_to_ns s pct1 1 <= pct_to_ns s pct2 1) /\
  servo_left E 0 st = servo_stop E st /\ servo_right E 0 st = servo_stop E st.
Proof.
  intros s Hn Hm span.
  assert (Hs : (if max_ns s - neutral_ns s <? 0
                then - (max_ns s - neutral_ns s) else max_ns s - neutral_ns s) = span).
  { subst span. destruct (Z.ltb_spec (max_ns s - neutral_ns s) 0); lia. }
  assert (Hc : forall p, 0 <= clamp p 0 100 <= 100).
  { intro p. unfold clamp. destruct (Z.ltb_spec p 0); [lia|].
    destruct (Z.ltb_spec 100 p); lia. }
  assert (Hcc : forall p, clamp (clamp p 0 100) 0 100 = clamp p 0 100).
  { intro p. apply clamp_id. apply Hc. }
  assert (Hcm : forall p q, p <= q -> clamp p 0 100 <= clamp q 0 100).
  { intros p q Hpq. unfold clamp.
    destruct (Z.ltb_spec p 0); destruct (Z.ltb_spec 100 p);
    destruct (Z.ltb_spec q 0); destruct (Z.ltb_spec 100 q); lia. }
  assert (Hsp : 0 <= span) by (subst span; lia).
  unfold pct_to_ns. rewrite Hs.
  split; [intro dir; rewrite Hcc; reflexivity|].
  destruct (Z.leb_spec 0 (-1)) as [H|_]; [lia|].
  destruct (Z.leb_spec 0 1) as [_|H]; [|lia].
  split; [lia|].
  split.
  - pose proof (Hc pct1) as H1.
    assert (0 <= Z.quot (span * clamp pct1 0 100) 100) by
      (rewrite Z.quot_div_nonneg by lia; apply Z.div_pos; lia).
    assert (Z.quot (span * clamp pct1 0 100) 100 <= span).
    { rewrite Z.quot_div_nonneg by lia. apply Z.div_le_upper_bound; [lia|].
      nia. }
    lia.
  - split.
    + intros Hle. pose proof (Hc pct1). pose proof (Hc pct2).
      pose proof (Hcm _ _ Hle).
      assert (Z.quot (span * clamp pct1 0 100) 100 <= Z.quot (span * clamp pct2 0 100) 100)
        by (apply quot_nonneg_mono; nia).
      lia.
    + unfold servo_left, servo_right, servo_stop, sbind, sget. cbv beta iota.
      unfold pct_to_ns. fold s. rewrite Hs.
      replace (clamp 0 0 100) with 0 by reflexivity.
      rewrite Z.mul_0_r. change (Z.quot 0 100) with 0. rewrite Z.add_0_r, Z.sub_0_r.
      split; reflexivity.
Qed.

Lemma pct_to_ns_shape_witness :
  pct_to_ns (sv (st_enabled 1600000 1200000 2000000)) 150 1 =
  pct_to_ns (sv (st_enabled 1600000 1200000 2000000)) (clamp 150 0 100) 1.
Proof.
  refine (proj1 (pct_to_ns_shape senv_ok (st_enabled 1600000 1200000 2000000) 150 150
                   _ _) 1).
  - split; apply Z.leb_le; reflexivity.
  - split; apply Z.leb_le; reflexivity.
Defined.

Lemma export_wait_absent E n p st :
  (forall t, se_exists E p t = false) ->
  export_wait E n p st =
    (tt, mkSS (sv st) (strace st ++ repeat (SSleep 20) n) (snw st)
              (sclock st + 20 * Z.of_nat n)).
Proof.
  intros Ha. revert st. induction n as [|n IH]; intros st.
  - simpl. rewrite app_nil_r, Z.add_0_r. destruct st; reflexivity.
  - cbn [export_wait]. unfold sbind, exists_, nanosleep. cbv beta iota.
    rewrite Ha. cbv beta iota. rewrite IH.
    cbn [sv strace snw sclock]. rewrite <- app_assoc. cbn [app repeat].
    f_equal. f_equal. lia.
Qed.

(** [export_pwm(chip, ch)]: a missing [pwmchipN] gives [-ENOENT] with no
    write; an existing [pwmN] gives 0 with no write; an export answered
    with [-EBUSY] gives 0 without waiting; otherwise, if [pwmN] never
    appears, it sleeps 50 times 20 ms and returns what the export write
    returned, so a successful export write is reported as success even
    though the channel directory does not exist. *)
Theorem export_pwm_outcomes E c ch st :
  let chip_path := chip_dir c in
  let pwm_path := (chip_path ++ "/pwm" ++ dec ch)%string in
  let exportf := (chip_path ++ "/export")%string in
  let rc := se_write_rc E (snw st) in
  let st1 := mkSS (sv st) (strace st ++ [SWrite exportf (dec ch) rc]) (S (snw st))
                  (sclock st) in
  (se_exists E chip_path (sclock st) = false -> export_pwm E c ch st = (- ENOENT, st)) /\
  (se_exists E chip_path (sclock st) = true -> se_exists E pwm_path (sclock st) = true ->
   export_pwm E c ch st = (0, st)) /\
  (se_exists E chip_path (sclock st) = true -> se_exists E pwm_path (sclock st) = false ->
   rc = - EBUSY -> export_pwm E c ch st = (0, st1)) /\
  (se_exists E chip_path (sclock st) = true -> (forall t, se_exists E pwm_path t = false) ->
   rc <> - EBUSY ->
   export_pwm E c ch st =
     (rc, mkSS (sv st) (strace st1 ++ repeat (SSleep 20) 50) (snw st1) (sclock st + 1000))).
Proof.
  intros chip_path pwm_path exportf rc st1.
  unfold export_pwm, sbind, exists_, sret, write_int, write_str. cbv beta iota.
  fold chip_path pwm_path exportf rc.
  split; [intros H; rewrite H; reflexivity|].
  split; [intros H1 H2; rewrite H1; cbv beta iota delta [negb]; rewrite H2; reflexivity|].
  split.
  - intros H1 H2 H3. unfold st1, rc in *. rewrite H1. cbv beta iota delta [negb].
    rewrite H2. cbv beta iota. rewrite H3. rewrite Z.eqb_refl. reflexivity.
  - intros H1 H2 H3. rewrite H1. cbv beta iota delta [negb]. rewrite H2.
    cbv beta iota. unfold rc in H3. apply Z.eqb_neq in H3. rewrite H3.
    rewrite (export_wait_absent E 50 pwm_path _ H2). cbv beta iota.
    cbn [sv strace snw sclock]. rewrite H2. reflexivity.
Qed.

(** A board whose [pwmchip0] exists but whose [pwm0] never appears, and
    which accepts the export write. *)
Lemma export_pwm_outcomes_witness :
  let E := mkSEnv None (fun p _ => String.eqb p (chip_dir 0)) (fun _ => 0) in
  let st := mkSS servo_zero [] O 0 in
  fst (export_pwm E 0 0 st) = 0.
Proof.
  intros E st.
  rewrite (proj2 (proj2 (proj2 (export_pwm_outcomes E 0 0 st)))).
  - reflexivity.
  - reflexivity.
  - intros t. reflexivity.
  - discriminate.
Defined.

(** A successful [servo_init(chip, ch, per, neutral, min, max)] (chip
    taken from [PWM0_CHIP], or 0, when negative) leaves the servo enabled
    with the given bounds and base [/sys/class/pwm/pwmchipC/pwmN], after
    writing [enable] 0, [duty_cycle] 1, possibly [polarity] "normal", then
    the period, the neutral pulse and [enable] 1, the last three accepted. *)
Theorem servo_init_success E c ch per neutral mn mx st st' :
  servo_init E c ch per neutral mn mx st = (0, st') ->
  let c' := if c <? 0 then match se_chip_env E with Some v => v | None => 0 end else c in
  let b := (chip_dir c' ++ "/pwm" ++ dec ch)%string in
  sv st' = mkServo c' ch per neutral mn mx b true /\
  exists pre r1 r2 pol,
    (pol = [] \/ exists r, pol = [SWrite (b ++ "/polarity") "normal" r]) /\
    strace st' = pre ++ [SWrite (b ++ "/enable") "0" r1; SWrite (b ++ "/duty_cycle") "1" r2]
                 ++ pol ++
                 [SWrite (b ++ "/period") (dec per) 0;
                  SWrite (b ++ "/duty_cycle") (dec neutral) 0;
                  SWrite (b ++ "/enable") "1" 0].
Proof.
  intros H c' b.
  unfold servo_init, sbind, sput, sget, write_int, write_str, exists_, sret in H.
  cbv beta iota in H. fold c' in H.
  set (st0 := mkSS _ _ _ _) in H.
  pose proof (keeps_export_pwm E c' ch st0) as Hk.
  destruct (export_pwm E c' ch st0) as [rc st1]. simpl in Hk.
  cbv beta iota in H.
  destruct (rc =? 0) eqn:Hrc; cbv beta iota delta [negb] in H;
    [|injection H as H _; subst rc; discriminate].
  cbn [sv strace snw sclock] in H.
  destruct (se_exists E _ (sclock st1)); cbv beta iota in H;
  cbn [sv strace snw sclock] in H;
  repeat match type of H with
  | context [se_write_rc E ?k =? 0] =>
      let Hw := fresh "Hw" in
      destruct (se_write_rc E k =? 0) eqn:Hw;
      cbv beta iota delta [negb] in H; cbn [sv strace snw sclock fst snd] in H;
      [apply Z.eqb_eq in Hw |]
  end;
  try (injection H as H _;
       match goal with Hx : (_ =? 0) = false |- _ => apply Z.eqb_neq in Hx end;
       contradiction);
  injection H as <-; cbn [sv strace]; rewrite Hk; (split; [reflexivity|]);
  exists (strace st1), (se_write_rc E (snw st1)), (se_write_rc E (S (snw st1))).
  - exists [SWrite (b ++ "/polarity") "normal" (se_write_rc E (S (S (snw st1))))].
    split; [right; eexists; reflexivity|].
    repeat match goal with Hx : se_write_rc E _ = 0 |- _ => rewrite Hx; clear Hx end.
    repeat rewrite <- app_assoc. reflexivity.
  - exists []. split; [left; reflexivity|].
    repeat match goal with Hx : se_write_rc E _ = 0 |- _ => rewrite Hx; clear Hx end.
    repeat rewrite <- app_assoc. reflexivity.
Qed.

Lemma servo_init_success_witness :
  enabled (sv (snd (servo_init senv_ok (-1) 0 20000000 1600000 1200000 2000000
                      (mkSS servo_zero [] O 0)))) = true.
Proof.
  destruct (servo_init_success senv_ok (-1) 0 20000000 1600000 1200000 2000000
              (mkSS servo_zero [] O 0)
              (snd (servo_init senv_ok (-1) 0 20000000 1600000 1200000 2000000
                      (mkSS servo_zero [] O 0)))
              ltac:(vm_compute; reflexivity)) as [H _].
  rewrite H. reflexivity.
Defined.

End ServoExtra.

(** ** Further properties of the encoder set-up and tear-down *)
Module RotaryApiExtra.
Import Rotary RotaryApi RotaryFacts.

Lemma sysfs_write_run G p v a : g_run (snd (sysfs_write G p v a)) = g_run a.
Proof. reflexivity. Qed.

Lemma gpio_export_run G n a : g_run (snd (gpio_export G n a)) = g_run a.
Proof. unfold gpio_export. destruct (ge_access G _); reflexivity. Qed.

Lemma gpio_set_dir_in_run G n a : g_run (snd (gpio_set_dir_in G n a)) = g_run a.
Proof. reflexivity. Qed.

Lemma each3_run f a :
  (forall n a, g_run (snd (f n a)) = g_run a) ->
  g_run (snd (each3 f a)) = g_run a.
Proof.
  intros Hf. unfold each3.
  pose proof (Hf ENC_A_GPIO a) as H1. destruct (f ENC_A_GPIO a) as [r1 a1].
  simpl in H1. destruct (negb (r1 =? 0)); [exact H1|].
  pose proof (Hf ENC_B_GPIO a1) as H2. destruct (f ENC_B_GPIO a1) as [r2 a2].
  simpl in H2. destruct (negb (r2 =? 0)); [simpl; congruence|].
  pose proof (Hf ENC_SW_GPIO a2) as H3. destruct (f ENC_SW_GPIO a2) as [r3 a3].
  simpl in *. congruence.
Qed.

(** What a call of [rotaryEncoder_init] with the encoder stopped leaves. *)
Lemma init_spec G a r a' :
  g_run a = 0 -> rotaryEncoder_init G a = (r, a') ->
  (r = 0 /\ g_run a' = 1 /\ g_pos (enc a') = 0 /\ g_button_edge (enc a') = 0 /\
   0 <= fd_a a' /\ 0 <= fd_b a' /\ 0 <= fd_sw a' /\
   exists pre, gtrace a' = pre ++ [GOpen (value_path ENC_A_GPIO) (fd_a a');
                                   GOpen (value_path ENC_B_GPIO) (fd_b a');
                                   GOpen (value_path ENC_SW_GPIO) (fd_sw a');
                                   GSpawn true])
  \/ (r = -1 /\ g_run a' = 0).
Proof.
  intros Hr H. unfold rotaryEncoder_init in H. rewrite Hr in H. simpl negb in H.
  cbv iota beta in H.
  pose proof (each3_run (gpio_export G) a (gpio_export_run G)) as H1.
  destruct (each3 (gpio_export G) a) as [bad1 a1]. simpl in H1.
  destruct bad1; [injection H as <- <-; right; split; congruence|].
  pose proof (each3_run (gpio_set_dir_in G) a1 (gpio_set_dir_in_run G)) as H2.
  destruct (each3 (gpio_set_dir_in G) a1) as [bad2 a2]. simpl in H2.
  destruct bad2; [injection H as <- <-; right; split; congruence|].
  unfold gpio_open_value in H. cbv beta iota in H.
  set (pA := (gpio_dir ENC_A_GPIO ++ _)%string) in H.
  set (pB := (gpio_dir ENC_B_GPIO ++ _)%string) in H.
  set (pS := (gpio_dir ENC_SW_GPIO ++ _)%string) in H.
  unfold log in H. cbv beta iota zeta in H.
  cbn [g_run enc fd_a fd_b fd_sw gtrace] in H.
  destruct ((ge_open G pA <? 0) || (ge_open G pB <? 0) || (ge_open G pS <? 0)) eqn:Hf.
  - injection H as <- <-. right. split; [reflexivity|]. simpl. congruence.
  - rewrite !Bool.orb_false_iff, !Z.ltb_ge in Hf.
    destruct (ge_spawn_ok G); injection H as <- <-.
    + left. cbn [g_run enc fd_a fd_b fd_sw gtrace g_pos g_button_edge].
      repeat split; try lia.
      exists (gtrace a2). rewrite <- !app_assoc. reflexivity.
    + right. split; reflexivity.
Qed.

(** Outcome of [rotaryEncoder_init]: with the encoder running it returns 0
    and changes nothing; otherwise it returns 0 with the thread started, the
    counters reset and three open descriptors, or -1 with the encoder
    stopped. *)
Theorem init_outcome G a :
  let '(r, a') := rotaryEncoder_init G a in
  if g_run a =? 0 then
    (r = 0 /\ g_run a' = 1 /\ g_pos (enc a') = 0 /\ g_button_edge (enc a') = 0 /\
     0 <= fd_a a' /\ 0 <= fd_b a' /\ 0 <= fd_sw a')
    \/ (r = -1 /\ g_run a' = 0)
  else r = 0 /\ a' = a.
Proof.
  destruct (rotaryEncoder_init G a) as [r a'] eqn:H.
  destruct (g_run a =? 0) eqn:Hr.
  - apply Z.eqb_eq in Hr. destruct (init_spec G a r a' Hr H)
      as [(H1 & H2 & H3 & H4 & H5 & H6 & H7 & _) | H1].
    + left. tauto.
    + right. exact H1.
  - unfold rotaryEncoder_init in H. rewrite Hr in H. simpl in H.
    injection H as <- <-. split; reflexivity.
Qed.

(** A failed set-up leaves the encoder stopped, so a later
    [rotaryEncoder_cleanup] does nothing: the value files it opened stay
    open. *)
Theorem init_failure_leaks_fds G a :
  g_run a = 0 -> fst (rotaryEncoder_init G a) = -1 ->
  rotaryEncoder_cleanup (snd (rotaryEncoder_init G a)) = snd (rotaryEncoder_init G a).
Proof.
  intros Hr Hf. destruct (rotaryEncoder_init G a) as [r a'] eqn:H.
  simpl in *. subst r.
  destruct (init_spec G a (-1) a' Hr H) as [[H0 _] | [_ H0]]; [discriminate|].
  unfold rotaryEncoder_cleanup. rewrite H0. reflexivity.
Qed.

Lemma init_failure_leaks_fds_witness :
  fd_a (snd (rotaryEncoder_init genv_no_b api_fresh)) = 3 /\
  fd_sw (snd (rotaryEncoder_init genv_no_b api_fresh)) = 3 /\
  rotaryEncoder_cleanup (snd (rotaryEncoder_init genv_no_b api_fresh))
    = snd (rotaryEncoder_init genv_no_b api_fresh).
Proof.
  split; [vm_compute; reflexivity|]. split; [vm_compute; reflexivity|].
  apply init_failure_leaks_fds; vm_compute; reflexivity.
Defined.

Local Ltac close_fds :=
  unfold close_fd, log; cbn [g_run enc fd_a fd_b fd_sw gtrace];
  destruct (0 <=? _); cbn [g_run enc fd_a fd_b fd_sw gtrace];
  destruct (0 <=? _); cbn [g_run enc fd_a fd_b fd_sw gtrace];
  destruct (0 <=? _); cbn [g_run enc fd_a fd_b fd_sw gtrace].

Lemma cleanup_stops a : g_run (rotaryEncoder_cleanup a) = 0.
Proof.
  unfold rotaryEncoder_cleanup. destruct (g_run a =? 0) eqn:H;
    [apply Z.eqb_eq; exact H|].
  close_fds; reflexivity.
Qed.

(** [rotaryEncoder_cleanup] always leaves the encoder stopped, keeps the
    counters and is idempotent; when the encoder ran it joins the thread,
    closes the non-negative descriptors in the order A, B, SW and sets all
    three to -1. *)
Theorem cleanup_effect a :
  let a' := rotaryEncoder_cleanup a in
  g_run a' = 0 /\ enc a' = enc a /\ rotaryEncoder_cleanup a' = a' /\
  if g_run a =? 0 then a' = a
  else fd_a a' = -1 /\ fd_b a' = -1 /\ fd_sw a' = -1 /\
       gtrace a' = gtrace a ++ GJoin ::
         map GClose (filter (fun fd => 0 <=? fd) [fd_a a; fd_b a; fd_sw a]).
Proof.
  cbv zeta.
  pose proof (cleanup_stops a) as Hr0.
  split; [exact Hr0|].
  split.
  { unfold rotaryEncoder_cleanup. destruct (g_run a =? 0); [reflexivity|].
    close_fds; reflexivity. }
  split.
  { unfold rotaryEncoder_cleanup at 1. rewrite Hr0. reflexivity. }
  unfold rotaryEncoder_cleanup. destruct (g_run a =? 0); [reflexivity|].
  cbn [filter map]; close_fds; repeat split; rewrite <- ?app_assoc; reflexivity.
Qed.

(** A successful set-up followed by the tear-down closes exactly the three
    descriptors the set-up opened, after joining the thread. *)
Theorem init_then_cleanup G a :
  g_run a = 0 -> fst (rotaryEncoder_init G a) = 0 ->
  let a1 := snd (rotaryEncoder_init G a) in
  let a2 := rotaryEncoder_cleanup a1 in
  g_run a2 = 0 /\ fd_a a2 = -1 /\ fd_b a2 = -1 /\ fd_sw a2 = -1 /\
  (exists pre, gtrace a1 = pre ++ [GOpen (value_path ENC_A_GPIO) (fd_a a1);
                                   GOpen (value_path ENC_B_GPIO) (fd_b a1);
                                   GOpen (value_path ENC_SW_GPIO) (fd_sw a1);
                                   GSpawn true]) /\
  gtrace a2 = gtrace a1 ++ [GJoin; GClose (fd_a a1); GClose (fd_b a1); GClose (fd_sw a1)].
Proof.
  intros Hr Hs. cbv zeta.
  destruct (rotaryEncoder_init G a) as [r a1] eqn:H. simpl in Hs |- *. subst r.
  destruct (init_spec G a 0 a1 Hr H)
    as [(_ & H2 & _ & _ & H5 & H6 & H7 & Htr) | [H0 _]]; [|discriminate].
  unfold rotaryEncoder_cleanup, close_fd, log. rewrite H2. simpl Z.eqb. cbv iota.
  cbn [g_run enc fd_a fd_b fd_sw gtrace].
  apply Z.leb_le in H5, H6, H7. rewrite H5, H6, H7.
  cbn [g_run enc fd_a fd_b fd_sw gtrace].
  repeat split; try reflexivity; [exact Htr|]. rewrite <- !app_assoc. reflexivity.
Qed.

Lemma init_then_cleanup_witness :
  let a1 := snd (rotaryEncoder_init genv_ok api_fresh) in
  (fd_a a1, fd_b a1, fd_sw a1) = (3, 4, 5) /\
  gtrace (rotaryEncoder_cleanup a1) =
    gtrace a1 ++ [GJoin; GClose 3; GClose 4; GClose 5].
Proof.
  cbv zeta. split; [vm_compute; reflexivity|].
  destruct (init_then_cleanup genv_ok api_fresh eq_refl
              ltac:(vm_compute; reflexivity)) as (_ & _ & _ & _ & _ & H).
  rewrite H. vm_compute. reflexivity.
Defined.

(** A button already held down when the polling thread starts is never
    reported as a press while it stays down. *)
Theorem thread_start_held_no_press s ra rb rsw es :
  sysfs_read_int rsw = 1 -> g_button_edge s = 0 -> held es ->
  count_true (fst (run (encoder_thread_start s ra rb rsw) es)) = 0%nat.
Proof.
  intros Hsw He Hh. rewrite run_held; [| exact Hsw | exact Hh].
  cbn [encoder_thread_start g_button_edge]. rewrite He. reflexivity.
Qed.

Lemma thread_start_held_no_press_witness :
  count_true (fst (run (encoder_thread_start (mkState 0 0 0 0 (mkTs 0 0))
                          (line 0) (line 0) (line 1))
                       [Tick (line 0) (line 1) (line 1) (mkTs 5 0); Take])) = 0%nat.
Proof.
  apply thread_start_held_no_press; [reflexivity | reflexivity |].
  intros ra rb rsw now Hin. simpl in Hin.
  destruct Hin as [Hin | [Hin | []]]; inversion Hin; reflexivity.
Defined.

End RotaryApiExtra.

(** ** Properties of the application loop *)
Module MainExtra.
Import Servo ServoFacts Main.

Lemma servo_init_sv E c ch per neutral mn mx st :
  let c' := if c <? 0 then match se_chip_env E with Some v => v | None => 0 end else c in
  let '(r, st') := servo_init E c ch per neutral mn mx st in
  if r =? 0 then sv st' = mkServo c' ch per neutral mn mx (chip_dir c' ++ "/pwm" ++ dec ch) true
  else enabled (sv st') = false.
Proof.
  cbv zeta.
  unfold servo_init, sbind, sput, sget, write_int, write_str, exists_, sret.
  cbv beta iota.
  remember (if c <? 0 then match se_chip_env E with Some v => v | None => 0 end else c)
    as c' eqn:Hc'. clear Hc'.
  set (st0 := mkSS _ _ _ _).
  pose proof (keeps_export_pwm E c' ch st0) as Hk.
  destruct (export_pwm E c' ch st0) as [rc st1]. simpl in Hk.
  cbv beta iota.
  destruct (rc =? 0) eqn:Hrc; cbv beta iota delta [negb];
    [|rewrite Hrc, Hk; reflexivity].
  cbn [sv strace snw sclock].
  destruct (se_exists E _ (sclock st1)); cbv beta iota;
  cbn [sv strace snw sclock];
  repeat match goal with
  | |- context [se_write_rc E ?k =? 0] =>
      let Hw := fresh "Hw" in
      destruct (se_write_rc E k =? 0) eqn:Hw;
      cbv beta iota delta [negb]; cbn [sv strace snw sclock fst snd]
  end;
  cbv beta iota delta [Z.eqb set_base set_enabled];
  cbn [sv enabled chip channel period_ns neutral_ns min_ns max_ns base];
  first [discriminate | rewrite Hk; reflexivity].
Qed.

(** The button part of one loop iteration: while a result is awaited the
    edge is not consumed; otherwise a pending edge is consumed and counted as
    a send, and when the send fails the loop neither waits nor moves the
    servo. *)
Theorem main_iter_button E send_ok recv ms :
  let ms' := main_iter E send_ok recv ms in
  if waiting ms then m_enc ms' = m_enc ms /\ sends ms' = sends ms
  else if Rotary.g_button_edge (m_enc ms) =? 0 then ms' = ms
  else Rotary.g_button_edge (m_enc ms') = 0 /\ sends ms' = S (sends ms) /\
       waiting ms' = (if send_ok then
                        match recv with
                        | Some msg => negb (String.eqb msg "paper" || String.eqb msg "plastic")
                        | None => true
                        end
                      else false) /\
       (send_ok = false -> m_srv ms' = m_srv ms).
Proof.
  destruct ms as [[p e l lsw t] srv w n]. cbv zeta.
  unfold main_iter, Rotary.button_pressed.
  cbn [waiting m_enc m_srv sends Rotary.g_button_edge].
  destruct w; cbv beta iota.
  - destruct recv as [msg|];
      [destruct (String.eqb msg "paper"); [|destruct (String.eqb msg "plastic")]|];
      split; reflexivity.
  - destruct (e =? 0) eqn:He; cbv beta iota delta [negb].
    + apply Z.eqb_eq in He. subst e. reflexivity.
    + destruct send_ok; cbv beta iota delta [negb].
      * destruct recv as [msg|];
          [destruct (String.eqb msg "paper"); [|destruct (String.eqb msg "plastic")]|];
          repeat split; try reflexivity; discriminate.
      * repeat split.
Qed.

(** The result part of one loop iteration, for the servo as [main] set it
    up: while a result is awaited, the message [paper] writes the minimum
    pulse and then the neutral one, [plastic] the maximum and then the
    neutral one, and both end the wait; any other message, or none, changes
    nothing. *)
Theorem main_iter_result E send_ok recv ms :
  waiting ms = true ->
  enabled (sv (m_srv ms)) = true ->
  min_ns (sv (m_srv ms)) = SERVO_MIN_NS ->
  max_ns (sv (m_srv ms)) = SERVO_MAX_NS ->
  let ms' := main_iter E send_ok recv ms in
  let p := (base (sv (m_srv ms)) ++ "/duty_cycle")%string in
  m_enc ms' = m_enc ms /\ sends ms' = sends ms /\ sv (m_srv ms') = sv (m_srv ms) /\
  match recv with
  | Some msg =>
      if String.eqb msg "paper" then
        waiting ms' = false /\
        exists r1 r2, strace (m_srv ms') =
          strace (m_srv ms) ++ [SWrite p "1200000" r1; SWrite p "1600000" r2]
      else if String.eqb msg "plastic" then
        waiting ms' = false /\
        exists r1 r2, strace (m_srv ms') =
          strace (m_srv ms) ++ [SWrite p "2000000" r1; SWrite p "1600000" r2]
      else ms' = ms
  | None => ms' = ms
  end.
Proof.
  destruct ms as [enc0 [[c ch per neu mn mx b en] tr nw clk] w n].
  cbn [waiting m_srv sv enabled min_ns max_ns]. intros -> -> -> ->. cbv zeta.
  unfold main_iter. cbv beta iota delta [negb].
  destruct recv as [msg|]; [|repeat split].
  destruct (String.eqb msg "paper"); [|destruct (String.eqb msg "plastic")];
    [..|repeat split];
  unfold servo_to_neutral, servo_to_paper, servo_to_plastic, servo_set_pulse_ns,
    sbind, sget, write_int, write_str, sret;
  cbn [m_enc sends m_srv sv strace snw sclock enabled min_ns max_ns base waiting fst snd];
  cbv beta iota delta [negb];
  cbn [m_enc sends m_srv sv strace snw sclock enabled min_ns max_ns base waiting fst snd];
  (split; [reflexivity|]); (split; [reflexivity|]); (split; [reflexivity|]);
  (split; [reflexivity|]);
  exists (se_write_rc E nw), (se_write_rc E (S nw));
  rewrite <- app_assoc; reflexivity.
Qed.

Lemma main_iter_result_witness :
  let ms := mkMS (Rotary.mkState 0 0 0 0 (Rotary.mkTs 0 0))
                 (st_enabled SERVO_NEUTRAL_NS SERVO_MIN_NS SERVO_MAX_NS) true O in
  exists r1 r2, strace (m_srv (main_iter senv_ok true (Some "paper"%string) ms)) =
    [SWrite "/sys/class/pwm/pwmchip0/pwm0/duty_cycle" "1200000" r1;
     SWrite "/sys/class/pwm/pwmchip0/pwm0/duty_cycle" "1600000" r2].
Proof.
  cbv zeta.
  destruct (main_iter_result senv_ok true (Some "paper"%string)
              (mkMS (Rotary.mkState 0 0 0 0 (Rotary.mkTs 0 0))
                    (st_enabled SERVO_NEUTRAL_NS SERVO_MIN_NS SERVO_MAX_NS) true O)
              eq_refl eq_refl eq_refl eq_refl)
    as (_ & _ & _ & _ & r1 & r2 & H).
  exists r1, r2. rewrite H. vm_compute. reflexivity.
Defined.

(** Start-up of [main]: an early return gives exit code 1 with the encoder
    stopped and the servo disabled; reaching the loop means the encoder runs
    and the servo is enabled with the bounds of [main], its last write the
    neutral pulse. *)
Theorem main_start_outcome G E sock_ok a st :
  RotaryApi.g_run a = 0 -> enabled (sv st) = false ->
  let '(code, a', st') := main_start G E sock_ok a st in
  match code with
  | Some k => k = 1 /\ RotaryApi.g_run a' = 0 /\ enabled (sv st') = false
  | None =>
      RotaryApi.g_run a' = 1 /\ enabled (sv st') = true /\ channel (sv st') = 0 /\
      period_ns (sv st') = SERVO_PERIOD_NS /\ neutral_ns (sv st') = SERVO_NEUTRAL_NS /\
      min_ns (sv st') = SERVO_MIN_NS /\ max_ns (sv st') = SERVO_MAX_NS /\
      exists pre r, strace st' = pre ++ [SWrite (base (sv st') ++ "/duty_cycle") "1600000" r]
  end.
Proof.
  intros Hr Hen. unfold main_start.
  destruct (RotaryApi.rotaryEncoder_init G a) as [r a1] eqn:Hi.
  pose proof (RotaryApiExtra.init_spec G a r a1 Hr Hi) as Hs.
  destruct (r =? 0) eqn:Hr0; cbv beta iota delta [negb].
  2:{ destruct Hs as [[H0 _] | [_ H0]]; [subst r; discriminate | split; [reflexivity | split; assumption]]. }
  apply Z.eqb_eq in Hr0. subst r.
  destruct Hs as [(_ & Hrun & _) | [H0 _]]; [|discriminate].
  pose proof (servo_init_sv E (-1) 0 SERVO_PERIOD_NS SERVO_NEUTRAL_NS SERVO_MIN_NS
                SERVO_MAX_NS st) as Hv.
  destruct (servo_init E (-1) 0 SERVO_PERIOD_NS SERVO_NEUTRAL_NS SERVO_MIN_NS
              SERVO_MAX_NS st) as [r st1].
  cbv zeta in Hv.
  destruct (r =? 0); cbv beta iota delta [negb].
  2:{ split; [reflexivity|]. split; [|exact Hv].
      apply RotaryApiExtra.cleanup_stops. }
  unfold servo_to_neutral, servo_set_pulse_ns, sbind, sget, write_int, write_str, sret.
  rewrite Hv. cbn [enabled negb min_ns max_ns base].
  destruct sock_ok; cbv beta iota; cbn [sv strace snw sclock fst snd].
  - rewrite Hv. cbn [enabled channel period_ns neutral_ns min_ns max_ns base].
    repeat split; try assumption.
    exists (strace st1), (se_write_rc E (snw st1)). reflexivity.
  - split; [reflexivity|]. split.
    + apply RotaryApiExtra.cleanup_stops.
    + reflexivity.
Qed.

Lemma main_start_outcome_witness :
  let '(code, a', st') := main_start RotaryApi.genv_ok senv_ok true RotaryApi.api_fresh
                            (mkSS servo_zero [] O 0) in
  code = None /\ enabled (sv st') = true /\
  exists pre r, strace st' = pre ++ [SWrite (base (sv st') ++ "/duty_cycle") "1600000" r].
Proof.
  pose proof (main_start_outcome RotaryApi.genv_ok senv_ok true RotaryApi.api_fresh
                (mkSS servo_zero [] O 0) eq_refl eq_refl) as H.
  destruct (main_start RotaryApi.genv_ok senv_ok true RotaryApi.api_fresh
              (mkSS servo_zero [] O 0)) as [[code a'] st'] eqn:E.
  assert (Hc : code = None) by (vm_compute in E; injection E as <- _ _; reflexivity).
  subst code. destruct H as (_ & Hen & _ & _ & _ & _ & _ & Htr).
  split; [reflexivity|]. split; assumption.
Defined.

End MainExtra.
